(** * Berries: the fetch-and-assemble pipeline of [berries.py]

    A shallow embedding of [BerriesAPI] ([get], [get_all],
    [get_all_generator]) and of the [BerriesService] facade, with the
    properties the specification states about them.

    - Decoded JSON is a Python value ([pyval]); subscripting and iteration
      raise what Python raises; the dataclasses store what they are given.
    - The remote service is a fixture: a function from the URL handed to the
      httpx client to the reply the transport delivers. A response is a
      success for a status in 200..299, and [raise_for_status] raises
      [HTTPStatusError], holding the request and the response, otherwise.
    - A coroutine awaited by its caller is a function on the [world]. The
      detail fetches that [asyncio.as_completed] wraps in tasks are stepped
      by the event loop while the generator is suspended; which task is
      stepped when is the schedule the world carries, so a statement for
      every schedule is a statement for every timing of the network. A task
      that finishes is put in the queue of [as_completed], and the generator
      takes its results from the head of that queue. *)

From Stdlib Require Import ZArith Lia.
From stdpp Require Import base option list strings pretty.

Set Warnings "-register-all".

Local Open Scope string_scope.
Local Open Scope list_scope.

(** ** Python values and exceptions *)

(** What [Response.json()] can return. A [dict] keeps its insertion order and
    has distinct keys; a [float] is identified by its [repr]; a character of a
    [str] is an [ascii]. *)
Inductive pyval : Type :=
| PyNone
| PyBool (b : bool)
| PyInt (z : Z)
| PyFloat (repr : string)
| PyStr (s : string)
| PyList (items : list pyval)
| PyDict (entries : list (string * pyval)).

(** The three ways the pipeline can hit a [TypeError]. *)
Inductive type_fault : Type :=
| NotSubscriptable
| IndexNotInt
| NotIterable.

Inductive exn : Type :=
| HTTPStatusError (status : Z) (url : string)
| TransportError (why : string)
| JSONDecodeError
| KeyError (key : string)
| TypeError (fault : type_fault)
| InvalidStateError.

(** What an exception object lets its handler read. *)
Definition exn_url (e : exn) : option string :=
  match e with
  | HTTPStatusError _ u => Some u
  | _ => None
  end.

Definition exn_status (e : exn) : option Z :=
  match e with
  | HTTPStatusError s _ => Some s
  | _ => None
  end.

Definition exn_key (e : exn) : option string :=
  match e with
  | KeyError k => Some k
  | _ => None
  end.

(** A computation that returns or raises. *)
Inductive res (A : Type) : Type :=
| Ret (a : A)
| Raise (e : exn).
Arguments Ret {A} a.
Arguments Raise {A} e.

#[global] Instance res_ret : MRet res := @Ret.
#[global] Instance res_bind : MBind res := fun A B f m =>
  match m with
  | Ret a => f a
  | Raise e => Raise e
  end.

(** A comprehension [[f x for x in l]]: left to right, the first exception ends it. *)
Fixpoint comprehension {A B : Type} (f : A -> res B) (l : list A) : res (list B) :=
  match l with
  | [] => Ret []
  | x :: rest =>
      y ← f x;
      ys ← comprehension f rest;
      Ret (y :: ys)
  end.

Fixpoint dict_get (key : string) (entries : list (string * pyval)) : option pyval :=
  match entries with
  | [] => None
  | (k, v) :: rest => if String.eqb k key then Some v else dict_get key rest
  end.

(** [v[key]] for a [str] key. *)
Definition getitem (v : pyval) (key : string) : res pyval :=
  match v with
  | PyDict entries =>
      match dict_get key entries with
      | Some x => Ret x
      | None => Raise (KeyError key)
      end
  | PyList _ | PyStr _ => Raise (TypeError IndexNotInt)
  | PyNone | PyBool _ | PyInt _ | PyFloat _ => Raise (TypeError NotSubscriptable)
  end.

(** [for x in v]: a list gives its items, a dict its keys, a str its characters. *)
Definition iter (v : pyval) : res (list pyval) :=
  match v with
  | PyList items => Ret items
  | PyDict entries => Ret (map (fun kv => PyStr (fst kv)) entries)
  | PyStr s => Ret (map (fun c => PyStr (String c EmptyString)) (String.list_ascii_of_string s))
  | PyNone | PyBool _ | PyInt _ | PyFloat _ => Raise (TypeError NotIterable)
  end.

(** ** Domain model

    The dataclasses are frozen and check no field type: a field holds
    whatever value the constructor was given. *)

Record Firmness : Type := mkFirmness {
  Firmness_name : pyval;
  Firmness_url : pyval
}.

Record Flavor : Type := mkFlavor {
  Flavor_name : pyval;
  Flavor_url : pyval;
  Flavor_potency : pyval
}.

Record Berry : Type := mkBerry {
  Berry_id : pyval;
  Berry_name : pyval;
  Berry_firmness : Firmness;
  Berry_flavors : list Flavor
}.

(** ** HTTP *)

(** What the transport delivers for one request. [content] is the decoded
    body, [None] when the body is not JSON. *)
Inductive reply : Type :=
| Refused (why : string)
| Replied (status : Z) (content : option pyval).

Record Response : Type := mkResponse {
  request_url : string;
  status_code : Z;
  content : option pyval
}.

Definition is_success (r : Response) : bool :=
  (200 <=? status_code r)%Z && (status_code r <=? 299)%Z.

Definition raise_for_status (r : Response) : res Response :=
  if is_success r then Ret r
  else Raise (HTTPStatusError (status_code r) (request_url r)).

Definition json (r : Response) : res pyval :=
  match content r with
  | Some data => Ret data
  | None => Raise JSONDecodeError
  end.

(** The response, or the transport's exception, for the request of [url]. *)
Definition receive (url : string) (r : reply) : res Response :=
  match r with
  | Refused why => Raise (TransportError why)
  | Replied status body => Ret (mkResponse url status body)
  end.

(** ** [BerriesAPI.get], after its [await] *)

(** One element of the [flavors] comprehension (line 78). *)
Definition Flavor_of (flavor : pyval) : res Flavor :=
  inner ← getitem flavor "flavor";
  name ← getitem inner "name";
  inner' ← getitem flavor "flavor";
  url ← getitem inner' "url";
  potency ← getitem flavor "potency";
  Ret (mkFlavor name url potency).

(** The [Berry(...)] expression (lines 73-81): keyword arguments are
    evaluated in the order written. *)
Definition Berry_of (data : pyval) : res Berry :=
  id ← getitem data "id";
  name ← getitem data "name";
  firm ← getitem data "firmness";
  fname ← getitem firm "name";
  firm' ← getitem data "firmness";
  furl ← getitem firm' "url";
  raw ← getitem data "flavors";
  each ← iter raw;
  flavors ← comprehension Flavor_of each;
  Ret (mkBerry id name (mkFirmness fname furl) flavors).

(** Lines 72-81: what [get] does once the response is there. *)
Definition get_rest (response : Response) : res Berry :=
  ok ← raise_for_status response;
  data ← json ok;
  Berry_of data.

(** ** Awaiting

    [Co W A] is a coroutine awaited by its caller, run on the world [W]: it
    returns or raises and leaves a new world, or is never resumed ([None]). *)
Definition Co (W A : Type) : Type := W -> option (res A * W).

Definition co_ret {W A : Type} (a : A) : Co W A := fun w => Some (Ret a, w).

Definition co_bind {W A B : Type} (m : Co W A) (f : A -> Co W B) : Co W B :=
  fun w =>
    match m w with
    | None => None
    | Some (Ret a, w') => f a w'
    | Some (Raise e, w') => Some (Raise e, w')
    end.

(** A step that does not suspend. *)
Definition lift {W A : Type} (r : res A) : Co W A := fun w => Some (r, w).

Notation "'await' x <- m ;; k" := (co_bind m (fun x => k))
  (at level 100, x name, m at level 50, k at level 100, right associativity).

(** What one [__anext__] of an async generator gives its consumer: an item,
    an exception, or [StopAsyncIteration]. *)
Inductive outcome (A : Type) : Type :=
| Yielded (a : A)
| Raised (e : exn)
| Stopped.
Arguments Yielded {A} a.
Arguments Raised {A} e.
Arguments Stopped {A}.

(** An async generator object: the state of its frame and its [__anext__]. *)
Record AsyncGenerator (W A : Type) : Type := mkGen {
  gen_frame : Type;
  gen_start : gen_frame;
  gen_anext : gen_frame -> W -> option (outcome A * gen_frame * W)
}.
Arguments gen_frame {W A} _.
Arguments gen_start {W A} _.
Arguments gen_anext {W A} _ _ _.

(** [[x async for x in G]], allowed [fuel] advances. *)
Fixpoint collect {W A : Type} (G : AsyncGenerator W A) (fuel : nat)
  (g : gen_frame G) (acc : list A) (w : W) : option (res (list A) * W) :=
  match fuel with
  | O => None
  | S n =>
      match gen_anext G g w with
      | None => None
      | Some (Yielded a, g', w') => collect G n g' (acc ++ [a]) w'
      | Some (Raised e, _, w') => Some (Raise e, w')
      | Some (Stopped, _, w') => Some (Ret acc, w')
      end
  end.

(** A consumer that advances [G] up to [n] times and stops at the first
    exception or [StopAsyncIteration]: what it saw, and the world it is left
    in ([None] when an advance is never resumed). *)
Fixpoint drive {W A : Type} (G : AsyncGenerator W A) (n : nat)
  (g : gen_frame G) (w : W) : list (outcome A) * option W :=
  match n with
  | O => ([], Some w)
  | S k =>
      match gen_anext G g w with
      | None => ([], None)
      | Some (Yielded a, g', w') =>
          let (seen, fin) := drive G k g' w' in (Yielded a :: seen, fin)
      | Some (o, _, w') => ([o], Some w')
      end
  end.

(** ** The world of a [BerriesAPI] *)

(** A detail fetch wrapped in a task: created, suspended at its [await]
    with the request out, or done. *)
Inductive task : Type :=
| Scheduled (id : pyval)
| Awaiting (url : string)
| Finished (result : res Berry).

(** [log]: the requests sent, oldest first. [sched]: the tasks the event
    loop will step, in that order, while a coroutine of ours is suspended.
    [pool]: the tasks of the running fan-out. [done]: the queue
    [as_completed] fills from the tasks' done callbacks. *)
Record world : Type := mkWorld {
  log : list string;
  sched : list nat;
  pool : list task;
  done : list nat
}.

Definition sent (u : string) (w : world) : world :=
  mkWorld (log w ++ [u]) (sched w) (pool w) (done w).

Definition set_task (i : nat) (t : task) (w : world) : world :=
  mkWorld (log w) (sched w) (<[i := t]> (pool w)) (done w).

Definition put_nowait (f : nat) (w : world) : world :=
  mkWorld (log w) (sched w) (pool w) (done w ++ [f]).

(** [Future.result()] of task [f]. *)
Definition result (w : world) (f : nat) : res Berry :=
  match pool w !! f with
  | Some (Finished r) => r
  | _ => Raise InvalidStateError
  end.

(** A [BerriesAPI] object: [self.url]; the remote behind [self._client], a
    fixture; and Python's [repr] of a list or dict, which the f-string of
    line 71 would use for such an identifier. *)
Record BerriesAPI : Type := mkAPI {
  url : string;
  client : string -> reply;
  repr : pyval -> string
}.

Section Methods.

Variable self : BerriesAPI.

(** [f"{id}"] *)
Definition format (v : pyval) : string :=
  match v with
  | PyNone => "None"
  | PyBool true => "True"
  | PyBool false => "False"
  | PyInt z => pretty z
  | PyFloat r => r
  | PyStr s => s
  | PyList _ | PyDict _ => repr self v
  end.

(** [await self._client.get(u)], awaited by the caller. *)
Definition client_get (u : string) : Co world Response :=
  fun w => Some (receive u (client self u), sent u w).

Definition get (id : pyval) : Co world Berry :=
  await response <- client_get (url self +:+ "/" +:+ format id) ;;
  lift (get_rest response).

(** The same coroutine run as a task: its first step sends the request, its
    second runs lines 72-81 on what came back and fires the done callback. *)
Definition tick (i : nat) (w : world) : world :=
  match pool w !! i with
  | Some (Scheduled id) =>
      let u := url self +:+ "/" +:+ format id in
      set_task i (Awaiting u) (sent u w)
  | Some (Awaiting u) =>
      put_nowait i (set_task i (Finished (receive u (client self u) ≫= get_rest)) w)
  | Some (Finished _) | None => w
  end.

(** [await done.get()]: the head of the queue; while the queue is empty the
    event loop steps the tasks the schedule names. *)
Fixpoint queue_get (s : list nat) (w : world) : option (nat * world) :=
  match done w with
  | f :: q => Some (f, mkWorld (log w) s (pool w) q)
  | [] =>
      match s with
      | [] => None
      | i :: s' => queue_get s' (tick i w)
      end
  end.

(** Lines 103-104. *)
Definition names_of (response : Response) : res (list pyval) :=
  ok ← raise_for_status response;
  data ← json ok;
  results ← getitem data "results";
  each ← iter results;
  comprehension (fun berry => getitem berry "name") each.

(** Line 106 and the start of [as_completed]: one task per name, an empty queue. *)
Definition launch (names : list pyval) (w : world) : world :=
  mkWorld (log w) (sched w) (Scheduled <$> names) [].

(** The frame of [get_all_generator]: not started, in the loop of line 107
    with [todo] results still to come, or finished. *)
Inductive frame : Type :=
| Fresh
| Looping (todo : nat)
| Closed.

(** Lines 107-109. *)
Definition loop (todo : nat) (w : world) : option (outcome Berry * frame * world) :=
  match todo with
  | O => Some (Stopped, Closed, w)
  | S k =>
      match queue_get (sched w) w with
      | None => None
      | Some (f, w') =>
          match result w' f with
          | Ret berry => Some (Yielded berry, Looping k, w')
          | Raise e => Some (Raised e, Closed, w')
          end
      end
  end.

Definition anext (g : frame) (w : world) : option (outcome Berry * frame * world) :=
  match g with
  | Fresh =>
      match client_get (url self) w with
      | None => None
      | Some (response, w1) =>
          match response ≫= names_of with
          | Raise e => Some (Raised e, Closed, w1)
          | Ret names => loop (length names) (launch names w1)
          end
      end
  | Looping todo => loop todo w
  | Closed => Some (Stopped, Closed, w)
  end.

Definition get_all_generator : AsyncGenerator world Berry :=
  mkGen world Berry frame Fresh anext.

(** Line 90. *)
Definition get_all (fuel : nat) : Co world (list Berry) :=
  collect get_all_generator fuel Fresh [].

(** The consumer awaits something else for [k] steps of the event loop. *)
Fixpoint idle (k : nat) (w : world) : world :=
  match k, sched w with
  | S k', i :: s => idle k' (tick i (mkWorld (log w) s (pool w) (done w)))
  | _, _ => w
  end.

End Methods.

(** ** [BerriesRepository] and [BerriesService] *)

(** The protocol: any object with the three operations, on any world. *)
Record BerriesRepository (W : Type) : Type := mkRepository {
  repo_get : pyval -> Co W Berry;
  repo_get_all : Co W (list Berry);
  repo_get_all_generator : AsyncGenerator W Berry
}.
Arguments repo_get {W} _ _.
Arguments repo_get_all {W} _.
Arguments repo_get_all_generator {W} _.

(** A [BerriesAPI] is one; [fuel] bounds the advances of its [get_all]. *)
Definition as_repository (self : BerriesAPI) (fuel : nat) : BerriesRepository world :=
  mkRepository world (get self) (get_all self fuel) (get_all_generator self).

Module BerriesService.
Section Service.

Context {W : Type}.
Variable repository : BerriesRepository W.

(** Line 117. *)
Definition get (id : pyval) : Co W Berry :=
  await berry <- repo_get repository id ;;
  co_ret berry.

(** Line 120. *)
Definition get_all : Co W (list Berry) :=
  await berries <- repo_get_all repository ;;
  co_ret berries.

(** Lines 123-124. The frame holds the repository's generator while the
    [async for] runs, and nothing once it has ended. *)
Definition anext (g : option (gen_frame (repo_get_all_generator repository))) (w : W)
  : option (outcome Berry * option (gen_frame (repo_get_all_generator repository)) * W) :=
  match g with
  | None => Some (Stopped, None, w)
  | Some inner =>
      match gen_anext (repo_get_all_generator repository) inner w with
      | None => None
      | Some (Yielded berry, inner', w') => Some (Yielded berry, Some inner', w')
      | Some (Raised e, _, w') => Some (Raised e, None, w')
      | Some (Stopped, _, w') => Some (Stopped, None, w')
      end
  end.

Definition get_all_generator : AsyncGenerator W Berry :=
  mkGen W Berry (option (gen_frame (repo_get_all_generator repository)))
    (Some (gen_start (repo_get_all_generator repository))) anext.

End Service.
End BerriesService.

(** ** A fixture to run the definitions on *)

Module Fixture.

Definition base : string := "https://pokeapi.co/api/v2/berry".

Definition attr (name u : string) : pyval :=
  PyDict [("name", PyStr name); ("url", PyStr u)].

Definition cheri : pyval :=
  PyDict [("id", PyInt 1); ("name", PyStr "cheri");
          ("firmness", attr "soft" "u1");
          ("flavors", PyList [PyDict [("flavor", attr "spicy" "u2"); ("potency", PyInt 10)]])].

Definition chesto : pyval :=
  PyDict [("id", PyInt 2); ("name", PyStr "chesto");
          ("firmness", attr "super-hard" "u3");
          ("flavors", PyList [PyDict [("potency", PyInt 0); ("flavor", attr "spicy" "u2")];
                              PyDict [("potency", PyInt 10); ("flavor", attr "dry" "u4")]])].

Definition entry (name : string) : pyval :=
  PyDict [("name", PyStr name); ("url", PyStr (base +:+ "/" +:+ name))].

Definition listing (names : list string) : pyval :=
  PyDict [("count", PyInt (Z.of_nat (length names))); ("results", PyList (map entry names))].

(** A remote that lists [names], serves cheri (also as berry 42) and chesto,
    has lost pecha and answers anything else with 404. *)
Definition remote (names : list string) (u : string) : reply :=
  if String.eqb u base then Replied 200 (Some (listing names))
  else if String.eqb u (base +:+ "/cheri") then Replied 200 (Some cheri)
  else if String.eqb u (base +:+ "/42") then Replied 200 (Some cheri)
  else if String.eqb u (base +:+ "/chesto") then Replied 200 (Some chesto)
  else if String.eqb u (base +:+ "/pecha") then Replied 500 None
  else Replied 404 None.

(** A remote that answers every request with the same JSON body. *)
Definition serving (body : pyval) (u : string) : reply := Replied 200 (Some body).

(** A detail body of the wrong shape: [id] is a string, [name] a number,
    [flavors] an object. *)
Definition misshapen : pyval :=
  PyDict [("id", PyStr "one"); ("name", PyInt 7);
          ("firmness", attr "soft" "u1"); ("flavors", PyDict [])].

Definition no_repr (v : pyval) : string := "".

Definition api (names : list string) : BerriesAPI := mkAPI base (remote names) no_repr.

(** An API whose remote answers every request with [body]. *)
Definition api_serving (body : pyval) : BerriesAPI := mkAPI base (serving body) no_repr.

Definition start (s : list nat) : world := mkWorld [] s [] [].

Definition Cheri : Berry :=
  mkBerry (PyInt 1) (PyStr "cheri") (mkFirmness (PyStr "soft") (PyStr "u1"))
    [mkFlavor (PyStr "spicy") (PyStr "u2") (PyInt 10)].

Definition Chesto : Berry :=
  mkBerry (PyInt 2) (PyStr "chesto") (mkFirmness (PyStr "super-hard") (PyStr "u3"))
    [mkFlavor (PyStr "spicy") (PyStr "u2") (PyInt 0);
     mkFlavor (PyStr "dry") (PyStr "u4") (PyInt 10)].

(** The Berry the remote serves under a name. *)
Definition berry_named (n : string) : Berry :=
  if String.eqb n "cheri" then Cheri else Chesto.

End Fixture.

(** ** Completion order

    The vocabulary of the statements about the fan-out. *)

Section Order.

Variable self : BerriesAPI.

(** The request a detail fetch makes. *)
Definition detail_url (id : pyval) : string := url self +:+ "/" +:+ format self id.

(** The task of a detail fetch whose request is out. *)
Definition in_flight (id : pyval) : task := Awaiting (detail_url id).

(** What a detail fetch for [id] ends with against this remote. *)
Definition fetched (id : pyval) : res Berry :=
  receive (detail_url id) (client self (detail_url id)) ≫= get_rest.

(** The tasks in the order the schedule [s] completes them, from pool [p]. *)
Fixpoint completions (s : list nat) (p : list task) : list nat :=
  match s with
  | [] => []
  | i :: s' =>
      match p !! i with
      | Some (Scheduled id) => completions s' (<[i := Awaiting (detail_url id)]> p)
      | Some (Awaiting u) =>
          i :: completions s' (<[i := Finished (receive u (client self u) ≫= get_rest)]> p)
      | Some (Finished _) | None => completions s' p
      end
  end.

(** The order in which results will reach the consumer: those already
    queued, then the tasks as the schedule completes them. *)
Definition arrivals (w : world) : list nat :=
  done w ++ completions (sched w) (pool w).

(** The result of task [f] of the fan-out over [names]. *)
Definition result_of (names : list pyval) (f : nat) : res Berry :=
  match names !! f with
  | Some id => fetched id
  | None => Raise InvalidStateError
  end.

(** The requests of the tasks that have not sent theirs yet. *)
Definition unsent (p : list task) : list string :=
  omap (fun t => match t with Scheduled id => Some (detail_url id) | _ => None end) p.

(** The results of the tasks that are done. *)
Definition finished_results (p : list task) : list (res Berry) :=
  omap (fun t => match t with Finished r => Some r | _ => None end) p.

(** From [w] to [w'] the requests [out] were sent and [k] results were taken
    from the queue; every task that finished was put in the queue. *)
Definition advanced (w w' : world) (k : nat) : Prop :=
  exists out,
    log w' = log w ++ out
    /\ unsent (pool w) ≡ₚ out ++ unsent (pool w')
    /\ length (finished_results (pool w')) + length (done w)
       = length (finished_results (pool w)) + length (done w') + k
    /\ length (pool w') = length (pool w).

(** The state of the fan-out over [names]: task [i] fetches [names !! i],
    and what sits in the queue is done. *)
Definition fanned (names : list pyval) (w : world) : Prop :=
  Forall2 (fun id t => t = Scheduled id \/ t = Awaiting (detail_url id)
                       \/ t = Finished (fetched id)) names (pool w)
  /\ Forall (fun f => exists r, pool w !! f = Some (Finished r)) (done w).

End Order.

(** What [n] advances show a consumer of the loop of line 107 when [todo]
    results are awaited and [rs] are the results in the order they arrive. *)
Fixpoint script (rs : list (res Berry)) (todo n : nat) {struct n}
  : list (outcome Berry) :=
  match n with
  | O => []
  | S n' =>
      match todo, rs with
      | O, _ => Stopped :: replicate n' Stopped
      | S _, [] => []
      | S k, Ret berry :: rs' => Yielded berry :: script rs' k n'
      | S _, Raise e :: _ => Raised e :: replicate n' Stopped
      end
  end.

(** What line 90 returns on the same results. *)
Fixpoint gathered (rs : list (res Berry)) (todo : nat) (acc : list Berry)
  {struct todo} : option (res (list Berry)) :=
  match todo, rs with
  | O, _ => Some (Ret acc)
  | S _, [] => None
  | S k, Ret berry :: rs' => gathered rs' k (acc ++ [berry])
  | S _, Raise e :: _ => Some (Raise e)
  end.

(** A consumer: it advances the generator, or awaits something else for
    [k] steps of the event loop. *)
Inductive move : Type :=
| Advance
| Wait (k : nat).

Fixpoint advances (moves : list move) : nat :=
  match moves with
  | [] => 0
  | Advance :: rest => S (advances rest)
  | Wait _ :: rest => advances rest
  end.

Section Consumer.

Variable self : BerriesAPI.

(** What the consumer sees, advance by advance, until one is never resumed. *)
Fixpoint consume (moves : list move) (g : frame) (w : world) : list (outcome Berry) :=
  match moves with
  | [] => []
  | Wait k :: rest => consume rest g (idle self k w)
  | Advance :: rest =>
      match anext self g w with
      | None => []
      | Some (o, g', w') => o :: consume rest g' w'
      end
  end.

End Consumer.


(** How often the schedule [s] steps task [i]. *)
Definition stepped (s : list nat) (i : nat) : nat := count_occ Nat.eq_dec s i.

(** The schedule runs both steps of each of the [n] tasks. *)
Definition completes (n : nat) (s : list nat) : Prop :=
  forall i, i < n -> 2 <= stepped s i.

(** The index fetch of [self] succeeds and lists [names]. *)
Definition lists (self : BerriesAPI) (names : list pyval) : Prop :=
  receive (url self) (client self (url self)) ≫= names_of = Ret names.

(** The order in which the schedule [s] completes the detail fetches of a
    fan-out over [names]. *)
Definition completion_order (self : BerriesAPI) (names : list pyval) (s : list nat)
  : list nat :=
  completions self s (Scheduled <$> names).

(** Awaited on its own, [get] for [id] returns [berry] after one request. *)
Definition fetches (self : BerriesAPI) (id : pyval) (berry : Berry) : Prop :=
  forall w, get self id w = Some (Ret berry, sent (detail_url self id) w).

(** [entry] is an index entry with the name [n]. *)
Definition is_entry (entry : pyval) (n : string) : Prop :=
  exists es, entry = PyDict es /\ dict_get "name" es = Some (PyStr n).

Definition unfinished (t : task) : Prop :=
  match t with
  | Finished _ => False
  | Scheduled _ | Awaiting _ => True
  end.

(** ** Shapes of a detail payload *)

(** [item] is a [{flavor: {name, url}, potency}] object holding the fields of [fl]. *)
Definition is_flavor (item : pyval) (fl : Flavor) : Prop :=
  exists es inner,
    item = PyDict es
    /\ dict_get "flavor" es = Some (PyDict inner)
    /\ dict_get "name" inner = Some (Flavor_name fl)
    /\ dict_get "url" inner = Some (Flavor_url fl)
    /\ dict_get "potency" es = Some (Flavor_potency fl).

(** The top-level keys [get] reads, in the order it reads them. *)
Definition required : list string := ["id"; "name"; "firmness"; "flavors"].

(** The first required key the object lacks. *)
Definition first_missing (entries : list (string * pyval)) : option string :=
  List.find (fun k => match dict_get k entries with None => true | Some _ => false end) required.

(** [firmness] is an object with [name] and [url]. *)
Definition firmness_ok (entries : list (string * pyval)) : Prop :=
  exists firm n u,
    dict_get "firmness" entries = Some (PyDict firm)
    /\ dict_get "name" firm = Some n /\ dict_get "url" firm = Some u.

(** An exception of the kind subscripting and iterating raise. *)
Definition lookup_error (e : exn) : Prop :=
  (exists k, e = KeyError k) \/ (exists fault, e = TypeError fault).

Definition success (status : Z) : Prop := (200 <= status <= 299)%Z.

(** ** [BerriesApp] and [get_app] *)

(** A [BerriesService] object: it holds the repository it was given. *)
Record Service (W : Type) : Type := mkService {
  service_repository : BerriesRepository W
}.
Arguments service_repository {W} _.

Record BerriesApp : Type := mkApp {
  app_service : Service world;
  app_repository : BerriesAPI
}.

(** The default of [BerriesAPI.__init__]. *)
Definition default_url : string := "https://pokeapi.co/api/v2/berry".

(** Lines 141-144, against the remote and the [repr] of the run; [fuel]
    bounds the advances of the repository's [get_all]. *)
Definition get_app (remote : string -> reply) (py_repr : pyval -> string) (fuel : nat)
  : BerriesApp :=
  let repository := mkAPI default_url remote py_repr in
  let service := mkService world (as_repository repository fuel) in
  mkApp service repository.

(** ** The console script, [cli.py] *)

Module Cli.

(** What the script can end with: an exception of the core, or the
    [AttributeError] of [berry.name.startswith] on a name that is no [str]. *)
Inductive error : Type :=
| Propagated (e : exn)
| AttributeError (attribute : string).

Inductive tried (A : Type) : Type :=
| Got (a : A)
| Threw (e : error).
Arguments Got {A} a.
Arguments Threw {A} e.

(** [v.startswith(prefix)] *)
Definition startswith (v : pyval) (prefix : string) : tried bool :=
  match v with
  | PyStr s => Got (String.prefix prefix s)
  | _ => Threw (AttributeError "startswith")
  end.

(** What one advance of the filtered generator gives its consumer. *)
Inductive shown : Type :=
| Item (berry : Berry)
| Failed (e : error)
| Ended.

Section Filter.

Context {W : Type}.
Variable generator : AsyncGenerator W Berry.
Variable name : option string.

(** Line 16: [name is None or berry.name.startswith(name)]. *)
Definition wanted (berry : Berry) : tried bool :=
  match name with
  | None => Got true
  | Some prefix => startswith (Berry_name berry) prefix
  end.

(** Lines 15-17 up to the next [yield]: [generator] is advanced until it
    yields a wanted Berry, ends or raises; at most [limit] times. *)
Fixpoint sift (limit : nat) (g : gen_frame generator) (w : W)
  : option (shown * option (gen_frame generator) * W) :=
  match limit with
  | O => None
  | S n =>
      match gen_anext generator g w with
      | None => None
      | Some (Yielded berry, g', w') =>
          match wanted berry with
          | Got true => Some (Item berry, Some g', w')
          | Got false => sift n g' w'
          | Threw e => Some (Failed e, None, w')
          end
      | Some (Raised e, _, w') => Some (Failed (Propagated e), None, w')
      | Some (Stopped, _, w') => Some (Ended, None, w')
      end
  end.

(** [__anext__] of [_filter_berries(generator, name)]; its frame holds
    [generator] while the loop runs, and nothing once it has ended. *)
Definition _filter_berries (limit : nat) (f : option (gen_frame generator)) (w : W)
  : option (shown * option (gen_frame generator) * W) :=
  match f with
  | None => Some (Ended, None, w)
  | Some g => sift limit g w
  end.

End Filter.





Section Fetch.

Context {W : Type}.
Variable self : BerriesAPI.
Variable generator : AsyncGenerator W Berry.
Variable name : option string.


End Fetch.



(** The Berries of [bs] the filter lets through, up to the first whose name
    is no [str], and the exception that one causes. *)
Fixpoint screened (name : option string) (bs : list Berry) : list Berry * option error :=
  match bs with
  | [] => ([], None)
  | b :: rest =>
      match wanted name b with
      | Got true => let (kept, err) := screened name rest in (b :: kept, err)
      | Got false => screened name rest
      | Threw e => ([], Some e)
      end
  end.



Definition terminal (o : outcome Berry) : Prop :=
  match o with
  | Yielded _ => False
  | _ => True
  end.


Definition str_named (berry : Berry) : Prop :=
  exists s, Berry_name berry = PyStr s.

(** What the filter shows when [generator] ends with [o]. *)
Definition shown_end (o : outcome Berry) : shown :=
  match o with
  | Raised e => Failed (Propagated e)
  | _ => Ended
  end.

End Cli.

(** ** What [get] can raise, and what it reads *)


(** The fields of [fl] are what subscripting [item] gives (line 78). *)
Definition reads_flavor (item : pyval) (fl : Flavor) : Prop :=
  exists inner,
    getitem item "flavor" = Ret inner
    /\ getitem inner "name" = Ret (Flavor_name fl)
    /\ getitem inner "url" = Ret (Flavor_url fl)
    /\ getitem item "potency" = Ret (Flavor_potency fl).

(** The fields of [berry] are what subscripting [data] gives (lines 73-81). *)
Definition reads_berry (data : pyval) (berry : Berry) : Prop :=
  exists firm raw each,
    getitem data "id" = Ret (Berry_id berry)
    /\ getitem data "name" = Ret (Berry_name berry)
    /\ getitem data "firmness" = Ret firm
    /\ getitem firm "name" = Ret (Firmness_name (Berry_firmness berry))
    /\ getitem firm "url" = Ret (Firmness_url (Berry_firmness berry))
    /\ getitem data "flavors" = Ret raw
    /\ iter raw = Ret each
    /\ Forall2 reads_flavor each (Berry_flavors berry).


(** * Properties *)

Lemma is_success_iff (u : string) (status : Z) (body : option pyval) :
  is_success (mkResponse u status body) = true <-> success status.
Proof.
  unfold is_success, success. simpl.
  rewrite andb_true_iff, !Z.leb_le. tauto.
Qed.

Section GetFacts.

Variable self : BerriesAPI.

Lemma get_unfold (id : pyval) (w : world) :
  get self id w
  = Some (fetched self id, sent (detail_url self id) w).
Proof.
  unfold get, co_bind, client_get, lift, fetched, detail_url.
  destruct (receive _ _); reflexivity.
Qed.

Lemma fetched_success (id : pyval) (status : Z) (data : pyval) :
  client self (detail_url self id) = Replied status (Some data) ->
  success status ->
  fetched self id = Berry_of data.
Proof.
  intros Hr Hs. unfold fetched. rewrite Hr. cbn.
  unfold get_rest, raise_for_status.
  apply (is_success_iff (detail_url self id) status (Some data)) in Hs.
  rewrite Hs. reflexivity.
Qed.

Lemma fetched_failure (id : pyval) (status : Z) (body : option pyval) :
  client self (detail_url self id) = Replied status body ->
  ~ success status ->
  fetched self id = Raise (HTTPStatusError status (detail_url self id)).
Proof.
  intros Hr Hs. unfold fetched. rewrite Hr. cbn.
  unfold get_rest, raise_for_status.
  destruct (is_success _) eqn:E; [|reflexivity].
  apply is_success_iff in E. contradiction.
Qed.

End GetFacts.

Lemma bind_Ret {A B : Type} (a : A) (f : A -> res B) : Ret a ≫= f = f a.
Proof. reflexivity. Qed.

Lemma bind_Raise {A B : Type} (e : exn) (f : A -> res B) : Raise e ≫= f = Raise e.
Proof. reflexivity. Qed.

Lemma getitem_dict (entries : list (string * pyval)) (key : string) (v : pyval) :
  dict_get key entries = Some v -> getitem (PyDict entries) key = Ret v.
Proof. intros H. unfold getitem. rewrite H. reflexivity. Qed.

Lemma getitem_missing (entries : list (string * pyval)) (key : string) :
  dict_get key entries = None -> getitem (PyDict entries) key = Raise (KeyError key).
Proof. intros H. unfold getitem. rewrite H. reflexivity. Qed.

(** Runs a chain of binds as far as the hypotheses on the payload decide it. *)
Ltac run_res :=
  repeat first
    [ rewrite bind_Ret
    | rewrite bind_Raise
    | match goal with
      | H : dict_get ?k ?es = Some ?v |- context [getitem (PyDict ?es) ?k] =>
          rewrite (getitem_dict es k v H)
      | H : dict_get ?k ?es = None |- context [getitem (PyDict ?es) ?k] =>
          rewrite (getitem_missing es k H)
      end ].

Lemma comprehension_cons {A B : Type} (f : A -> res B) (x : A) (l : list A) :
  comprehension f (x :: l)
  = f x ≫= fun y => comprehension f l ≫= fun ys => Ret (y :: ys).
Proof. reflexivity. Qed.

Lemma flavors_comprehension (items : list pyval) (flavors : list Flavor) :
  Forall2 is_flavor items flavors ->
  comprehension Flavor_of items = Ret flavors.
Proof.
  induction 1 as [|item fl items flavors (es & inner & -> & Hf & Hn & Hu & Hp) _ IH].
  - reflexivity.
  - rewrite comprehension_cons, IH. unfold Flavor_of.
    run_res. destruct fl; reflexivity.
Qed.

Lemma Berry_of_valid (entries firm : list (string * pyval)) (items : list pyval)
  (berry : Berry) :
  dict_get "id" entries = Some (Berry_id berry) ->
  dict_get "name" entries = Some (Berry_name berry) ->
  dict_get "firmness" entries = Some (PyDict firm) ->
  dict_get "name" firm = Some (Firmness_name (Berry_firmness berry)) ->
  dict_get "url" firm = Some (Firmness_url (Berry_firmness berry)) ->
  dict_get "flavors" entries = Some (PyList items) ->
  Forall2 is_flavor items (Berry_flavors berry) ->
  Berry_of (PyDict entries) = Ret berry.
Proof.
  intros Hid Hname Hfirm Hfn Hfu Hfl Hitems. unfold Berry_of.
  run_res. unfold iter. run_res.
  rewrite (flavors_comprehension _ _ Hitems). run_res.
  destruct berry as [? ? [? ?] ?]; reflexivity.
Qed.

(** C2. A detail response with a success status whose body is an object
    with [id], [name], [firmness: {name, url}] and a [flavors] array of
    [{flavor: {name, url}, potency}] objects makes [get] return the Berry
    whose fields are exactly those values, the flavors in the order of the
    array; one request was sent. *)
Theorem get_maps_valid_payload (self : BerriesAPI) (id : pyval) (w : world) (status : Z)
  (entries firm : list (string * pyval)) (items : list pyval) (berry : Berry) :
  client self (detail_url self id) = Replied status (Some (PyDict entries)) ->
  success status ->
  dict_get "id" entries = Some (Berry_id berry) ->
  dict_get "name" entries = Some (Berry_name berry) ->
  dict_get "firmness" entries = Some (PyDict firm) ->
  dict_get "name" firm = Some (Firmness_name (Berry_firmness berry)) ->
  dict_get "url" firm = Some (Firmness_url (Berry_firmness berry)) ->
  dict_get "flavors" entries = Some (PyList items) ->
  Forall2 is_flavor items (Berry_flavors berry) ->
  get self id w = Some (Ret berry, sent (detail_url self id) w).
Proof.
  intros Hr Hs Hid Hname Hfirm Hfn Hfu Hfl Hitems.
  rewrite get_unfold, (fetched_success _ _ _ _ Hr Hs).
  erewrite Berry_of_valid by eassumption. reflexivity.
Qed.

Lemma get_maps_valid_payload_cheri :
  get (Fixture.api []) (PyStr "cheri") (Fixture.start [])
  = Some (Ret Fixture.Cheri,
          sent (Fixture.base +:+ "/cheri") (Fixture.start [])).
Proof.
  apply (get_maps_valid_payload (Fixture.api [])
           (PyStr "cheri") (Fixture.start []) 200
           [("id", PyInt 1); ("name", PyStr "cheri");
            ("firmness", Fixture.attr "soft" "u1");
            ("flavors", PyList [PyDict [("flavor", Fixture.attr "spicy" "u2");
                                        ("potency", PyInt 10)]])]
           [("name", PyStr "soft"); ("url", PyStr "u1")]
           [PyDict [("flavor", Fixture.attr "spicy" "u2"); ("potency", PyInt 10)]]
           Fixture.Cheri); try reflexivity.
  - unfold success. lia.
  - constructor; [|constructor].
    exists [("flavor", Fixture.attr "spicy" "u2"); ("potency", PyInt 10)],
           [("name", PyStr "spicy"); ("url", PyStr "u2")].
    repeat split; reflexivity.
Defined.

(** ** Malformed bodies *)

Lemma first_missing_cases (entries : list (string * pyval)) (key : string) :
  first_missing entries = Some key ->
  (key = "id" /\ dict_get "id" entries = None)
  \/ (key = "name" /\ dict_get "name" entries = None
      /\ exists a, dict_get "id" entries = Some a)
  \/ (key = "firmness" /\ dict_get "firmness" entries = None
      /\ exists a b, dict_get "id" entries = Some a /\ dict_get "name" entries = Some b)
  \/ (key = "flavors" /\ dict_get "flavors" entries = None
      /\ exists a b, dict_get "id" entries = Some a /\ dict_get "name" entries = Some b).
Proof.
  unfold first_missing, required. cbn [List.find].
  destruct (dict_get "id" entries) eqn:E1; [|intros [= <-]; auto].
  destruct (dict_get "name" entries) eqn:E2;
    [|intros [= <-]; right; left; eauto].
  destruct (dict_get "firmness" entries) eqn:E3;
    [|intros [= <-]; right; right; left; eauto 6].
  destruct (dict_get "flavors" entries) eqn:E4;
    [discriminate|intros [= <-]; right; right; right; eauto 6].
Qed.

Lemma missing_has_first (entries : list (string * pyval)) (key : string) :
  In key required -> dict_get key entries = None ->
  exists k, first_missing entries = Some k.
Proof.
  intros Hin Hnone. unfold first_missing.
  destruct (List.find _ required) eqn:E; [eauto|].
  apply (List.find_none _ _ E) in Hin. rewrite Hnone in Hin. discriminate.
Qed.

Lemma getitem_error (v : pyval) (key : string) (e : exn) :
  getitem v key = Raise e -> lookup_error e.
Proof.
  unfold getitem, lookup_error. destruct v; try (intros [= <-]; eauto).
  destruct (dict_get key entries); intros [= <-]; eauto.
Qed.

Lemma Berry_of_missing (entries : list (string * pyval)) (key : string) :
  first_missing entries = Some key ->
  exists e, Berry_of (PyDict entries) = Raise e
            /\ lookup_error e
            /\ ((key = "flavors" -> firmness_ok entries) -> e = KeyError key).
Proof.
  intros Hfirst. unfold Berry_of.
  destruct (first_missing_cases _ _ Hfirst)
    as [[-> H]|[(-> & H & a & Ha)|[(-> & H & a & b & Ha & Hb)|(-> & H & a & b & Ha & Hb)]]].
  - run_res. eexists; split; [reflexivity|]. split; [left; eauto|auto].
  - run_res. eexists; split; [reflexivity|]. split; [left; eauto|auto].
  - run_res. eexists; split; [reflexivity|]. split; [left; eauto|auto].
  - run_res.
    destruct (dict_get "firmness" entries) as [firm|] eqn:Ef.
    2:{ run_res. eexists; split; [reflexivity|]. split; [left; eauto|].
        intros Hok. destruct (Hok eq_refl) as (f & n & u & Hf & _).
        rewrite Ef in Hf. discriminate. }
    run_res.
    destruct (getitem firm "name") as [n|e] eqn:En.
    2:{ run_res. eexists; split; [reflexivity|]. split; [eapply getitem_error; eauto|].
        intros Hok. destruct (Hok eq_refl) as (f & n & u & Hf & Hn & Hu).
        rewrite Ef in Hf. injection Hf as ->. rewrite (getitem_dict _ _ _ Hn) in En. discriminate. }
    run_res.
    destruct (getitem firm "url") as [u|e] eqn:Eu.
    2:{ run_res. eexists; split; [reflexivity|]. split; [eapply getitem_error; eauto|].
        intros Hok. destruct (Hok eq_refl) as (f & n' & u & Hf & Hn & Hu).
        rewrite Ef in Hf. injection Hf as ->. rewrite (getitem_dict _ _ _ Hu) in Eu. discriminate. }
    run_res. eexists; split; [reflexivity|]. split; [left; eauto|auto].
Qed.

(** C5, as the code has it. A detail response with a success status whose
    body is an object lacking [id], [name], [firmness] or [flavors] makes
    [get] raise and return no Berry; the exception is a [KeyError] or a
    [TypeError] and carries no URL; it is the [KeyError] of the missing key
    when that key is the first one missing and, for [flavors], [firmness] is
    an object with [name] and [url]. *)
Theorem get_missing_key_raises (self : BerriesAPI) (id : pyval) (w : world) (status : Z)
  (entries : list (string * pyval)) (key : string) :
  client self (detail_url self id) = Replied status (Some (PyDict entries)) ->
  success status ->
  In key required ->
  dict_get key entries = None ->
  exists e,
    get self id w = Some (Raise e, sent (detail_url self id) w)
    /\ lookup_error e
    /\ exn_url e = None
    /\ (first_missing entries = Some key ->
        (key = "flavors" -> firmness_ok entries) ->
        e = KeyError key /\ exn_key e = Some key).
Proof.
  intros Hr Hs Hin Hnone.
  destruct (missing_has_first _ _ Hin Hnone) as [k Hk].
  destruct (Berry_of_missing _ _ Hk) as (e & He & Herr & Hkey).
  exists e. rewrite get_unfold, (fetched_success _ _ _ _ Hr Hs), He.
  split; [reflexivity|]. split; [assumption|]. split.
  - destruct Herr as [[? ->]|[? ->]]; reflexivity.
  - intros Hfirst Hok. rewrite Hfirst in Hk. injection Hk as <-.
    rewrite (Hkey Hok). split; reflexivity.
Qed.

Lemma get_missing_key_raises_empty_object :
  exists e,
    get (Fixture.api_serving (PyDict [])) (PyInt 1) (Fixture.start [])
    = Some (Raise e, sent (Fixture.base +:+ "/1") (Fixture.start []))
    /\ lookup_error e
    /\ exn_url e = None
    /\ (first_missing [] = Some "id" ->
        ("id" = "flavors" -> firmness_ok []) ->
        e = KeyError "id" /\ exn_key e = Some "id").
Proof.
  apply (get_missing_key_raises (Fixture.api_serving (PyDict []))
           (PyInt 1) (Fixture.start []) 200 [] "id").
  - reflexivity.
  - unfold success. lia.
  - simpl. auto.
  - reflexivity.
Defined.

(** C5, as stated, fails: a body of the wrong shape ([id] a string,
    [flavors] an object) is turned into a Berry, and the exception for a
    body without [id] names the key but carries no URL. *)
Lemma malformed_body_not_rejected :
  get (Fixture.api_serving Fixture.misshapen) (PyInt 1) (Fixture.start [])
  = Some (Ret (mkBerry (PyStr "one") (PyInt 7)
                 (mkFirmness (PyStr "soft") (PyStr "u1")) []),
          sent (Fixture.base +:+ "/1") (Fixture.start []))
  /\ (exists w',
        get (Fixture.api_serving (PyDict [])) (PyInt 1) (Fixture.start [])
        = Some (Raise (KeyError "id"), w')
        /\ exn_url (KeyError "id") = None).
Proof.
  split; [reflexivity|]. eexists. split; reflexivity.
Qed.

(** ** Status codes *)

Lemma names_of_failure (u : string) (status : Z) (body : option pyval) :
  ~ success status ->
  names_of (mkResponse u status body) = Raise (HTTPStatusError status u).
Proof.
  intros Hs. unfold names_of, raise_for_status.
  destruct (is_success _) eqn:E; [|reflexivity].
  apply is_success_iff in E. contradiction.
Qed.

(** C6. A response with a status outside 200..299 makes the operation
    raise [HTTPStatusError] with that status and the requested URL, after a
    single request: [get] for a detail endpoint; for the index endpoint the
    first advance of [get_all_generator], which ends the generator, and
    [get_all]. *)
Theorem non_success_status_raises (self : BerriesAPI) (w : world) (status : Z) (body : option pyval) :
  ~ success status ->
  (forall id,
     client self (detail_url self id) = Replied status body ->
     get self id w
     = Some (Raise (HTTPStatusError status (detail_url self id)),
             sent (detail_url self id) w)
     /\ exn_status (HTTPStatusError status (detail_url self id)) = Some status
     /\ exn_url (HTTPStatusError status (detail_url self id))
        = Some (detail_url self id)
     /\ log (sent (detail_url self id) w) = log w ++ [detail_url self id])
  /\ (client self (url self) = Replied status body ->
      anext self Fresh w
      = Some (Raised (HTTPStatusError status (url self)), Closed, sent (url self) w)
      /\ (forall fuel,
            get_all self (S fuel) w
            = Some (Raise (HTTPStatusError status (url self)), sent (url self) w))
      /\ log (sent (url self) w) = log w ++ [url self]).
Proof.
  intros Hs. split.
  - intros id Hr. rewrite get_unfold, (fetched_failure _ _ _ _ Hr Hs).
    repeat split; reflexivity.
  - intros Hr.
    assert (Ha : anext self Fresh w
                 = Some (Raised (HTTPStatusError status (url self)), Closed,
                         sent (url self) w)).
    { unfold anext, client_get. rewrite Hr. cbn [receive].
      rewrite bind_Ret, (names_of_failure _ _ _ Hs). reflexivity. }
    split; [exact Ha|]. split; [|reflexivity].
    intros fuel. unfold get_all. cbn [collect gen_anext get_all_generator].
    rewrite Ha. reflexivity.
Qed.

Lemma non_success_status_raises_pecha :
  get (Fixture.api []) (PyStr "pecha") (Fixture.start [])
  = Some (Raise (HTTPStatusError 500 (Fixture.base +:+ "/pecha")),
          sent (Fixture.base +:+ "/pecha") (Fixture.start [])).
Proof.
  assert (Hs : ~ success 500) by (unfold success; lia).
  exact (proj1 (proj1 (non_success_status_raises (Fixture.api [])
                         (Fixture.start []) 500 None Hs)
                  (PyStr "pecha") eq_refl)).
Defined.

(** ** Repeated fetches *)

(** C9. Two calls of [get] for the same identifier, the second in the world
    the first left, on an object whose remote still gives the reply it gave
    for that identifier, end alike; when they return, the two Berries are
    equal field by field, the flavors as sequences. *)
Theorem get_twice_equal (self : BerriesAPI) (later : string -> reply)
  (id : pyval) (w : world) :
  later (detail_url self id) = client self (detail_url self id) ->
  exists r w1 w2,
    get self id w = Some (r, w1)
    /\ get (mkAPI (url self) later (repr self)) id w1 = Some (r, w2)
    /\ forall b1 b2,
         get self id w = Some (Ret b1, w1) ->
         get (mkAPI (url self) later (repr self)) id w1 = Some (Ret b2, w2) ->
         Berry_id b1 = Berry_id b2 /\ Berry_name b1 = Berry_name b2
         /\ Berry_firmness b1 = Berry_firmness b2
         /\ Berry_flavors b1 = Berry_flavors b2.
Proof.
  intros Hsame.
  assert (Hu : detail_url (mkAPI (url self) later (repr self)) id = detail_url self id)
    by (destruct id; reflexivity).
  assert (Hf : fetched (mkAPI (url self) later (repr self)) id = fetched self id).
  { unfold fetched. rewrite Hu. cbn [client]. rewrite Hsame. reflexivity. }
  exists (fetched self id), (sent (detail_url self id) w),
         (sent (detail_url self id) (sent (detail_url self id) w)).
  rewrite !get_unfold, Hf, Hu. split; [reflexivity|]. split; [reflexivity|].
  intros b1 b2 [= H1] [= H2]. rewrite H1 in H2. injection H2 as <-. auto.
Qed.

Lemma get_twice_equal_42 :
  exists r w1 w2,
    get (Fixture.api []) (PyInt 42) (Fixture.start []) = Some (r, w1)
    /\ get (mkAPI (url (Fixture.api [])) (Fixture.remote ["cheri"]) (repr (Fixture.api [])))
         (PyInt 42) w1 = Some (r, w2)
    /\ forall b1 b2,
         get (Fixture.api []) (PyInt 42) (Fixture.start []) = Some (Ret b1, w1) ->
         get (mkAPI (url (Fixture.api [])) (Fixture.remote ["cheri"]) (repr (Fixture.api [])))
           (PyInt 42) w1 = Some (Ret b2, w2) ->
         Berry_id b1 = Berry_id b2 /\ Berry_name b1 = Berry_name b2
         /\ Berry_firmness b1 = Berry_firmness b2
         /\ Berry_flavors b1 = Berry_flavors b2.
Proof.
  apply (get_twice_equal (Fixture.api []) (Fixture.remote ["cheri"]) (PyInt 42)
           (Fixture.start [])).
  reflexivity.
Defined.

(** ** The facade *)

Lemma service_drive {W : Type} (repository : BerriesRepository W) (n : nat)
  (g : gen_frame (repo_get_all_generator repository)) (w : W) :
  drive (BerriesService.get_all_generator repository) n (Some g) w
  = drive (repo_get_all_generator repository) n g w.
Proof.
  revert g w. induction n as [|n IH]; intros g w; [reflexivity|].
  cbn [drive gen_anext BerriesService.get_all_generator BerriesService.anext].
  destruct (gen_anext (repo_get_all_generator repository) g w) as [[[o g'] w']|];
    [|reflexivity].
  destruct o; [|reflexivity|reflexivity].
  rewrite IH. reflexivity.
Qed.

(** C8. Over any repository, on any world: [BerriesService.get] and
    [BerriesService.get_all] return, raise or stay suspended exactly as the
    repository's [get] and [get_all] do and leave the same world; a consumer
    of [BerriesService.get_all_generator] sees, advance for advance, what a
    consumer of the repository's generator sees. *)
Theorem service_delegates {W : Type} (repository : BerriesRepository W) :
  (forall id w, BerriesService.get repository id w = repo_get repository id w)
  /\ (forall w, BerriesService.get_all repository w = repo_get_all repository w)
  /\ (forall n w,
        drive (BerriesService.get_all_generator repository) n
          (gen_start (BerriesService.get_all_generator repository)) w
        = drive (repo_get_all_generator repository) n
            (gen_start (repo_get_all_generator repository)) w).
Proof.
  split; [|split].
  - intros id w. unfold BerriesService.get, co_bind, co_ret.
    destruct (repo_get repository id w) as [[[berry|e] w']|]; reflexivity.
  - intros w. unfold BerriesService.get_all, co_bind, co_ret.
    destruct (repo_get_all repository w) as [[[berries|e] w']|]; reflexivity.
  - intros n w. apply service_drive.
Qed.

(** The facade over a [BerriesAPI]. *)
Lemma service_over_api (self : BerriesAPI) (fuel : nat) (id : pyval) (w : world) :
  BerriesService.get (as_repository self fuel) id w = get self id w
  /\ BerriesService.get_all (as_repository self fuel) w = get_all self fuel w.
Proof.
  unfold BerriesService.get, BerriesService.get_all, co_bind, co_ret, as_repository.
  cbn [repo_get repo_get_all]. split.
  - destruct (get self id w) as [[[berry|e] w']|]; reflexivity.
  - destruct (get_all self fuel w) as [[[berries|e] w']|]; reflexivity.
Qed.

(** ** The fan-out *)

Section FanOut.

Variable self : BerriesAPI.

(** One step of the event loop moves the head of the completion order
    into the queue, or changes neither. *)
Lemma arrivals_step (i : nat) (s : list nat) (w : world) :
  done w ++ completions self (i :: s) (pool w)
  = done (tick self i w) ++ completions self s (pool (tick self i w)).
Proof.
  unfold tick. cbn [completions].
  destruct (pool w !! i) as [[id|u|r]|]; cbn; try reflexivity.
  rewrite <- app_assoc. reflexivity.
Qed.

Lemma queue_get_arrivals (s : list nat) (w : world) (f : nat) (w' : world) :
  queue_get self s w = Some (f, w') ->
  done w ++ completions self s (pool w) = f :: arrivals self w'.
Proof.
  revert w. induction s as [|i s IH]; intros w; cbn [queue_get].
  - destruct (done w) as [|f0 q]; [discriminate|]. intros [= <- <-]. reflexivity.
  - destruct (done w) as [|f0 q] eqn:E.
    + intros H. rewrite <- (IH _ H), <- arrivals_step, E. reflexivity.
    + intros [= <- <-]. reflexivity.
Qed.

Lemma queue_get_none (s : list nat) (w : world) :
  queue_get self s w = None <-> done w ++ completions self s (pool w) = [].
Proof.
  revert w. induction s as [|i s IH]; intros w; cbn [queue_get].
  - destruct (done w); cbn; split; congruence.
  - destruct (done w) as [|f0 q] eqn:E.
    + rewrite IH, <- arrivals_step, E. reflexivity.
    + cbn. split; congruence.
Qed.

Lemma idle_arrivals (k : nat) (w : world) : arrivals self (idle self k w) = arrivals self w.
Proof.
  revert w. induction k as [|k IH]; intros w; [destruct (sched w); reflexivity|].
  cbn [idle]. destruct (sched w) as [|i s] eqn:E; [reflexivity|].
  rewrite IH. unfold arrivals at 2. rewrite E.
  rewrite (arrivals_step i s w). unfold arrivals, tick. cbn.
  destruct (pool w !! i) as [[id|u|r]|]; reflexivity.
Qed.

Lemma tick_sched (i : nat) (w : world) : sched (tick self i w) = sched w.
Proof. unfold tick. destruct (pool w !! i) as [[id|u|r]|]; reflexivity. Qed.

Lemma idle_0 (w : world) : idle self 0 w = w.
Proof. cbn [idle]. destruct (sched w); reflexivity. Qed.

Lemma idle_sched (k : nat) (w : world) : sched (idle self k w) = drop k (sched w).
Proof.
  revert w. induction k as [|k IH]; intros w; [rewrite idle_0; reflexivity|].
  cbn [idle]. destruct (sched w) as [|i s] eqn:E; [rewrite E; reflexivity|].
  rewrite IH, tick_sched. reflexivity.
Qed.

(** Left alone, the event loop fills the queue in completion order. *)
Lemma idle_fills_queue (w : world) :
  done (idle self (length (sched w)) w) = arrivals self w.
Proof.
  rewrite <- (idle_arrivals (length (sched w)) w). unfold arrivals.
  rewrite idle_sched, drop_all. cbn [completions]. rewrite app_nil_r. reflexivity.
Qed.

(** *** The invariant of the running fan-out *)

Lemma fanned_launch (names : list pyval) (w : world) :
  fanned self names (launch names w).
Proof.
  split; [|constructor]. cbn [pool launch].
  induction names as [|id names IH]; constructor; auto.
Qed.

Lemma fanned_task (names : list pyval) (w : world) (i : nat) (t : task) :
  fanned self names w -> pool w !! i = Some t ->
  exists id, names !! i = Some id
             /\ (t = Scheduled id \/ t = Awaiting (detail_url self id)
                 \/ t = Finished (fetched self id)).
Proof.
  intros [Hp _] Ht. destruct (Forall2_lookup_r _ _ _ _ _ Hp Ht) as (id & Hid & H).
  eauto.
Qed.

Lemma fanned_sched (names : list pyval) (w : world) (s : list nat) :
  fanned self names w -> fanned self names (mkWorld (log w) s (pool w) (done w)).
Proof. intros H. exact H. Qed.

Lemma fanned_tick (names : list pyval) (i : nat) (w : world) :
  fanned self names w -> fanned self names (tick self i w).
Proof.
  intros Hf. unfold tick. destruct (pool w !! i) as [[id|u|r]|] eqn:E; try assumption.
  - destruct (fanned_task _ _ _ _ Hf E) as (id' & Hid & [[= <-]|[[=]|[=]]]).
    destruct Hf as [Hp Hd]. split; cbn [pool done set_task sent].
    + rewrite <- (list_insert_id names i id Hid). apply Forall2_insert; auto.
    + eapply Forall_impl; [exact Hd|]. intros f [r Hr]. exists r.
      rewrite list_lookup_insert_ne; [assumption|]. intros ->. congruence.
  - destruct (fanned_task _ _ _ _ Hf E) as (id' & Hid & [[=]|[[= ->]|[=]]]).
    destruct Hf as [Hp Hd]. split; cbn [pool done set_task put_nowait].
    + rewrite <- (list_insert_id names i id' Hid). apply Forall2_insert; auto.
    + apply Forall_app. split.
      * eapply Forall_impl; [exact Hd|]. intros f [r Hr]. exists r.
        rewrite list_lookup_insert_ne; [assumption|]. intros ->. congruence.
      * constructor; [|constructor]. eexists.
        apply list_lookup_insert_eq. eapply lookup_lt_Some; eassumption.
Qed.

Lemma queue_get_fanned (names : list pyval) (s : list nat) (w : world)
  (f : nat) (w' : world) :
  queue_get self s w = Some (f, w') ->
  fanned self names w ->
  fanned self names w' /\ result w' f = result_of self names f.
Proof.
  revert w. induction s as [|i s IH]; intros w; cbn [queue_get].
  - destruct (done w) as [|f0 q] eqn:E; [discriminate|]. intros [= <- <-] Hf.
    pose proof Hf as [Hp Hd]. rewrite E in Hd. inversion Hd as [|? ? [r Hr] Hq]; subst.
    split; [split; assumption|].
    unfold result, result_of. cbn [pool]. rewrite Hr.
    destruct (fanned_task _ _ _ _ Hf Hr) as (id & -> & [[=]|[[=]|[= ->]]]). reflexivity.
  - destruct (done w) as [|f0 q] eqn:E.
    + intros H Hf. apply (IH _ H). apply fanned_tick. assumption.
    + intros [= <- <-] Hf.
      pose proof Hf as [Hp Hd]. rewrite E in Hd. inversion Hd as [|? ? [r Hr] Hq]; subst.
      split; [split; assumption|].
      unfold result, result_of. cbn [pool]. rewrite Hr.
      destruct (fanned_task _ _ _ _ Hf Hr) as (id & -> & [[=]|[[=]|[= ->]]]). reflexivity.
Qed.

Lemma idle_fanned (names : list pyval) (k : nat) (w : world) :
  fanned self names w -> fanned self names (idle self k w).
Proof.
  revert w. induction k as [|k IH]; intros w Hf; [destruct (sched w); assumption|].
  cbn [idle]. destruct (sched w) as [|i s]; [assumption|].
  apply IH, fanned_tick, fanned_sched. assumption.
Qed.

(** *** What a consumer sees *)

Lemma consume_closed (moves : list move) (w : world) :
  consume self moves Closed w = replicate (advances moves) Stopped.
Proof.
  revert w. induction moves as [|[|k] moves IH]; intros w; cbn [consume advances].
  - reflexivity.
  - cbn [anext replicate]. rewrite IH. reflexivity.
  - apply IH.
Qed.

Lemma loop_cases (names : list pyval) (todo : nat) (w : world) :
  fanned self names w ->
  match loop self (S todo) w with
  | None => arrivals self w = []
  | Some (o, g, w') =>
      exists f, arrivals self w = f :: arrivals self w'
                /\ fanned self names w'
                /\ match result_of self names f with
                   | Ret berry => o = Yielded berry /\ g = Looping todo
                   | Raise e => o = Raised e /\ g = Closed
                   end
  end.
Proof.
  intros Hf. cbn [loop].
  destruct (queue_get self (sched w) w) as [[f w']|] eqn:E.
  - destruct (queue_get_fanned names _ _ _ _ E Hf) as [Hf' Hr].
    apply queue_get_arrivals in E. rewrite Hr.
    destruct (result_of self names f) eqn:R; exists f; rewrite R;
      (split; [exact E|auto]).
  - apply queue_get_none in E. exact E.
Qed.

Lemma consume_looping (names : list pyval) (moves : list move) (todo : nat) (w : world) :
  fanned self names w ->
  consume self moves (Looping todo) w
  = script (result_of self names <$> arrivals self w) todo (advances moves).
Proof.
  revert todo w. induction moves as [|[|k] moves IH]; intros todo w Hf;
    cbn [consume advances].
  - reflexivity.
  - cbn [anext]. destruct todo as [|todo].
    + cbn [loop script]. rewrite consume_closed. reflexivity.
    + pose proof (loop_cases names todo w Hf) as H.
      destruct (loop self (S todo) w) as [[[o g] w']|].
      * destruct H as (f & -> & Hf' & H). cbn [fmap list_fmap script].
        destruct (result_of self names f) as [berry|e]; destruct H as [-> ->].
        -- rewrite (IH _ _ Hf'). reflexivity.
        -- rewrite consume_closed. reflexivity.
      * rewrite H. reflexivity.
  - rewrite (IH _ _ (idle_fanned names k w Hf)), idle_arrivals. reflexivity.
Qed.

Lemma collect_looping (names : list pyval) (fuel todo : nat) (acc : list Berry) (w : world) :
  fanned self names w ->
  todo < fuel ->
  fst <$> collect (get_all_generator self) fuel (Looping todo) acc w
  = gathered (result_of self names <$> arrivals self w) todo acc.
Proof.
  revert todo acc w. induction fuel as [|fuel IH]; intros todo acc w Hf Hlt; [lia|].
  cbn [collect gen_anext get_all_generator anext]. destruct todo as [|todo].
  - reflexivity.
  - pose proof (loop_cases names todo w Hf) as H.
    destruct (loop self (S todo) w) as [[[o g] w']|].
    + destruct H as (f & -> & Hf' & H). cbn [fmap list_fmap gathered].
      destruct (result_of self names f) as [berry|e]; destruct H as [-> ->].
      * apply IH; [assumption|lia].
      * reflexivity.
    + rewrite H. reflexivity.
Qed.

(** *** The completion order *)

Lemma completions_unfinished (s : list nat) (p : list task) (f : nat) :
  f ∈ completions self s p -> exists t, p !! f = Some t /\ unfinished t.
Proof.
  revert p. induction s as [|i s IH]; intros p; cbn [completions].
  - intros H. inversion H.
  - destruct (p !! i) as [[id|u|r]|] eqn:E; [| |apply IH|apply IH].
    + intros H. destruct (IH _ H) as (t & Ht & Hu).
      destruct (decide (i = f)) as [->|Hne]; [exists (Scheduled id); split; [assumption|exact I]|].
      rewrite list_lookup_insert_ne in Ht by assumption. eauto.
    + intros H. apply elem_of_cons in H as [->|H];
        [exists (Awaiting u); split; [assumption|exact I]|].
      destruct (IH _ H) as (t & Ht & Hu).
      destruct (decide (i = f)) as [->|Hne].
      * rewrite list_lookup_insert_eq in Ht by (eapply lookup_lt_Some; eassumption).
        injection Ht as <-. destruct Hu.
      * rewrite list_lookup_insert_ne in Ht by assumption. eauto.
Qed.

Lemma completions_NoDup (s : list nat) (p : list task) : NoDup (completions self s p).
Proof.
  revert p. induction s as [|i s IH]; intros p; cbn [completions]; [constructor|].
  destruct (p !! i) as [[id|u|r]|] eqn:E; try apply IH.
  apply NoDup_cons. split; [|apply IH].
  intros H. destruct (completions_unfinished _ _ _ H) as (t & Ht & Hu).
  rewrite list_lookup_insert_eq in Ht by (eapply lookup_lt_Some; eassumption).
  injection Ht as <-. destruct Hu.
Qed.

Lemma completions_keep (i : nat) (s : list nat) (p : list task) (f : nat) :
  f ∈ completions self s
        (match p !! i with
         | Some (Scheduled id) => <[i := Awaiting (detail_url self id)]> p
         | Some (Awaiting u) => <[i := Finished (receive u (client self u) ≫= get_rest)]> p
         | _ => p
         end) ->
  f ∈ completions self (i :: s) p.
Proof.
  cbn [completions]. destruct (p !! i) as [[id|u|r]|]; auto.
  intros H. apply elem_of_cons. auto.
Qed.

Lemma completions_awaiting (s : list nat) (p : list task) (i : nat) (u : string) :
  p !! i = Some (Awaiting u) -> 1 <= stepped s i -> i ∈ completions self s p.
Proof.
  revert p. unfold stepped. induction s as [|j s IH]; intros p Hp Hs; cbn [count_occ] in Hs.
  - lia.
  - destruct (Nat.eq_dec j i) as [->|Hne].
    + cbn [completions]. rewrite Hp. apply elem_of_cons. auto.
    + apply completions_keep. apply IH; [|assumption].
      destruct (p !! j) as [[id|u'|r]|]; try assumption;
        rewrite list_lookup_insert_ne by assumption; assumption.
Qed.

Lemma completions_scheduled (s : list nat) (p : list task) (i : nat) (id : pyval) :
  p !! i = Some (Scheduled id) -> 2 <= stepped s i -> i ∈ completions self s p.
Proof.
  revert p. unfold stepped. induction s as [|j s IH]; intros p Hp Hs; cbn [count_occ] in Hs.
  - lia.
  - destruct (Nat.eq_dec j i) as [->|Hne].
    + cbn [completions]. rewrite Hp.
      apply (completions_awaiting _ _ _ (detail_url self id)); [|unfold stepped; lia].
      apply list_lookup_insert_eq. eapply lookup_lt_Some; eassumption.
    + apply completions_keep. apply IH; [|assumption].
      destruct (p !! j) as [[id'|u'|r]|]; try assumption;
        rewrite list_lookup_insert_ne by assumption; assumption.
Qed.

Lemma completion_order_NoDup (names : list pyval) (s : list nat) :
  NoDup (completion_order self names s).
Proof. apply completions_NoDup. Qed.

Lemma completion_order_lt (names : list pyval) (s : list nat) (f : nat) :
  f ∈ completion_order self names s -> f < length names.
Proof.
  intros H. destruct (completions_unfinished _ _ _ H) as (t & Ht & _).
  apply lookup_lt_Some in Ht. rewrite length_fmap in Ht. exact Ht.
Qed.

Lemma completion_order_length (names : list pyval) (s : list nat) :
  length (completion_order self names s) <= length names.
Proof.
  transitivity (length (seq 0 (length names))); [|rewrite length_seq; lia].
  apply submseteq_length, NoDup_submseteq; [apply completion_order_NoDup|].
  intros f Hf. apply elem_of_seq. apply completion_order_lt in Hf. lia.
Qed.

Lemma completion_order_complete (names : list pyval) (s : list nat) :
  completes (length names) s ->
  completion_order self names s ≡ₚ seq 0 (length names).
Proof.
  intros Hc. apply NoDup_Permutation; [apply completion_order_NoDup|apply NoDup_seq|].
  intros f. rewrite elem_of_seq. split.
  - intros H. apply completion_order_lt in H. lia.
  - intros [_ H]. cbn in H.
    destruct (lookup_lt_is_Some_2 names f H) as [id Hid].
    apply (completions_scheduled _ _ _ id); [|apply Hc; assumption].
    rewrite list_lookup_fmap, Hid. reflexivity.
Qed.

(** *** From the first advance *)

Lemma anext_fresh (names : list pyval) (w : world) :
  lists self names ->
  anext self Fresh w = loop self (length names) (launch names (sent (url self) w)).
Proof. intros H. unfold anext, client_get. unfold lists in H. rewrite H. reflexivity. Qed.

Lemma arrivals_launch (names : list pyval) (w : world) :
  arrivals self (launch names w) = completion_order self names (sched w).
Proof. reflexivity. Qed.

Lemma consume_fresh (names : list pyval) (moves : list move) (w : world) :
  lists self names ->
  consume self (Advance :: moves) Fresh w
  = script (result_of self names <$> completion_order self names (sched w))
      (length names) (S (advances moves)).
Proof.
  intros H.
  transitivity (consume self (Advance :: moves) (Looping (length names))
                  (launch names (sent (url self) w))).
  - cbn [consume]. rewrite (anext_fresh names w H). reflexivity.
  - rewrite (consume_looping names) by apply fanned_launch.
    rewrite arrivals_launch. reflexivity.
Qed.

Lemma get_all_fresh (names : list pyval) (fuel : nat) (w : world) :
  lists self names ->
  get_all self (S fuel) w
  = collect (get_all_generator self) (S fuel) (Looping (length names)) []
      (launch names (sent (url self) w)).
Proof.
  intros H. unfold get_all. cbn [collect gen_anext get_all_generator].
  rewrite (anext_fresh names w H). reflexivity.
Qed.

Lemma get_all_gathered (names : list pyval) (fuel : nat) (w : world) :
  lists self names ->
  length names < fuel ->
  fst <$> get_all self fuel w
  = gathered (result_of self names <$> completion_order self names (sched w))
      (length names) [].
Proof.
  intros H Hlt. destruct fuel as [|fuel]; [lia|].
  rewrite (get_all_fresh names fuel w H).
  rewrite (collect_looping names) by (apply fanned_launch || lia).
  rewrite arrivals_launch. reflexivity.
Qed.

End FanOut.

(** *** Scripts *)

Lemma script_yields (bs : list Berry) (rest : list (res Berry)) (todo n : nat) :
  length bs <= todo -> length bs <= n ->
  script ((Ret <$> bs) ++ rest) todo n
  = (Yielded <$> bs) ++ script rest (todo - length bs) (n - length bs).
Proof.
  revert todo n. induction bs as [|b bs IH]; intros todo n Ht Hn; cbn in *.
  - rewrite !Nat.sub_0_r. reflexivity.
  - destruct n as [|n]; [lia|]. destruct todo as [|todo]; [lia|].
    cbn [script]. rewrite IH by lia. reflexivity.
Qed.

Lemma script_short (bs : list Berry) (rest : list (res Berry)) (todo n : nat) :
  n <= length bs -> n <= todo ->
  script ((Ret <$> bs) ++ rest) todo n = Yielded <$> take n bs.
Proof.
  revert bs todo. induction n as [|n IH]; intros bs todo Hb Ht; [reflexivity|].
  destruct bs as [|b bs]; cbn in Hb; [lia|]. destruct todo as [|todo]; [lia|].
  cbn. rewrite IH by lia. reflexivity.
Qed.

Lemma gathered_yields (bs : list Berry) (rest : list (res Berry)) (todo : nat)
  (acc : list Berry) :
  length bs <= todo ->
  gathered ((Ret <$> bs) ++ rest) todo acc
  = gathered rest (todo - length bs) (acc ++ bs).
Proof.
  revert todo acc. induction bs as [|b bs IH]; intros todo acc Ht; cbn in *.
  - rewrite Nat.sub_0_r, app_nil_r. reflexivity.
  - destruct todo as [|todo]; [lia|]. cbn [gathered].
    rewrite IH by lia. rewrite <- app_assoc. reflexivity.
Qed.

(** ** Failure of a detail fetch *)

(** C3. When the results of the detail fetches, in the order they complete,
    are the Berries [bs] and then a failure [e]: a consumer of
    [get_all_generator] is yielded [bs] one advance at a time, in that
    order; the advance after them raises [e]; every later advance finds the
    generator ended; what was yielded stays yielded. [get_all] raises [e]
    and returns no list. *)
Theorem first_failure_aborts (self : BerriesAPI) (names : list pyval) (w : world)
  (bs : list Berry) (e : exn) (rest : list (res Berry)) :
  lists self names ->
  result_of self names <$> completion_order self names (sched w)
  = (Ret <$> bs) ++ Raise e :: rest ->
  (forall moves,
     (advances moves < length bs ->
      consume self (Advance :: moves) Fresh w = Yielded <$> take (S (advances moves)) bs)
     /\ (length bs <= advances moves ->
         consume self (Advance :: moves) Fresh w
         = (Yielded <$> bs) ++ Raised e :: replicate (advances moves - length bs) Stopped))
  /\ (forall fuel, length names < fuel ->
        exists w', get_all self fuel w = Some (Raise e, w')).
Proof.
  intros Hl Hrs.
  assert (Hlen : length bs < length names).
  { pose proof (completion_order_length self names (sched w)) as H.
    rewrite <- (length_fmap (result_of self names)), Hrs in H.
    rewrite length_app, length_fmap in H. cbn in H. lia. }
  split.
  - intros moves. rewrite (consume_fresh self names moves w Hl), Hrs. split; intros H.
    + apply script_short; lia.
    + rewrite script_yields by lia.
      destruct (length names - length bs) as [|todo] eqn:Et; [lia|].
      replace (S (advances moves) - length bs) with (S (advances moves - length bs)) by lia.
      reflexivity.
  - intros fuel Hfuel.
    pose proof (get_all_gathered self names fuel w Hl Hfuel) as H.
    rewrite Hrs, gathered_yields in H by lia.
    destruct (length names - length bs) as [|todo] eqn:Et; [lia|].
    cbn [gathered] in H.
    destruct (get_all self fuel w) as [[r w']|]; [|discriminate].
    injection H as ->. eauto.
Qed.

Lemma first_failure_aborts_pecha :
  consume (Fixture.api ["cheri"; "pecha"; "chesto"])
    [Advance; Wait 1; Advance; Advance; Advance] Fresh (Fixture.start [0; 1; 2; 2; 0; 1])
  = [Yielded Fixture.Chesto; Yielded Fixture.Cheri;
     Raised (HTTPStatusError 500 (Fixture.base +:+ "/pecha")); Stopped]
  /\ exists w',
       get_all (Fixture.api ["cheri"; "pecha"; "chesto"]) 4 (Fixture.start [0; 1; 2; 2; 0; 1])
       = Some (Raise (HTTPStatusError 500 (Fixture.base +:+ "/pecha")), w').
Proof.
  destruct (first_failure_aborts (Fixture.api ["cheri"; "pecha"; "chesto"])
              [PyStr "cheri"; PyStr "pecha"; PyStr "chesto"]
              (Fixture.start [0; 1; 2; 2; 0; 1])
              [Fixture.Chesto; Fixture.Cheri]
              (HTTPStatusError 500 (Fixture.base +:+ "/pecha")) []
              eq_refl eq_refl) as [Hgen Hall].
  split.
  - exact (proj2 (Hgen [Wait 1; Advance; Advance; Advance]) ltac:(cbn; lia)).
  - apply Hall. cbn. lia.
Defined.

(** ** The empty listing *)

Lemma idle_empty_pool (self : BerriesAPI) (k : nat) (w : world) :
  pool w = [] -> log (idle self k w) = log w.
Proof.
  revert w. induction k as [|k IH]; intros w Hp; [destruct (sched w); reflexivity|].
  cbn [idle]. destruct (sched w) as [|i s]; [reflexivity|].
  unfold tick. cbn [pool]. rewrite Hp. cbn. apply (IH (mkWorld (log w) s [] (done w))).
  reflexivity.
Qed.

(** C7. When the index lists no name: the first advance of
    [get_all_generator] ends it and every advance gives
    [StopAsyncIteration], so it yields nothing; the fan-out has no task, and
    whatever the event loop runs afterwards, the index request stays the
    only request sent; [get_all] returns the empty list. *)
Theorem empty_listing (self : BerriesAPI) (w : world) :
  lists self [] ->
  anext self Fresh w = Some (Stopped, Closed, launch [] (sent (url self) w))
  /\ (forall moves,
        consume self (Advance :: moves) Fresh w = replicate (S (advances moves)) Stopped)
  /\ pool (launch [] (sent (url self) w)) = []
  /\ (forall k, log (idle self k (launch [] (sent (url self) w))) = log w ++ [url self])
  /\ (forall fuel,
        get_all self (S fuel) w = Some (Ret [], launch [] (sent (url self) w))).
Proof.
  intros Hl. split; [|split; [|split; [|split]]].
  - rewrite (anext_fresh self [] w Hl). reflexivity.
  - intros moves. rewrite (consume_fresh self [] moves w Hl). reflexivity.
  - reflexivity.
  - intros k. rewrite idle_empty_pool; reflexivity.
  - intros fuel. rewrite (get_all_fresh self [] fuel w Hl). reflexivity.
Qed.

Lemma empty_listing_none :
  get_all (Fixture.api []) 1 (Fixture.start [0; 1])
  = Some (Ret [], launch [] (sent Fixture.base (Fixture.start [0; 1]))).
Proof.
  exact (proj2 (proj2 (proj2 (proj2
           (empty_listing (Fixture.api []) (Fixture.start [0; 1]) eq_refl)))) 0).
Defined.

(** ** Launch and completion order *)

Section Races.

Variable self : BerriesAPI.

Lemma lookup_first_scheduled (pre : list pyval) (id : pyval) (post : list pyval) :
  ((in_flight self <$> pre) ++ (Scheduled <$> id :: post)) !! length pre = Some (Scheduled id).
Proof.
  rewrite lookup_app_r by (rewrite length_fmap; lia).
  rewrite length_fmap, Nat.sub_diag. reflexivity.
Qed.

Lemma start_first_scheduled (pre : list pyval) (id : pyval) (post : list pyval) :
  <[length pre := in_flight self id]> ((in_flight self <$> pre) ++ (Scheduled <$> id :: post))
  = (in_flight self <$> pre ++ [id]) ++ (Scheduled <$> post).
Proof.
  rewrite insert_app_r_alt by (rewrite length_fmap; lia).
  rewrite length_fmap, Nat.sub_diag, fmap_app, <- app_assoc. reflexivity.
Qed.

(** Stepping each created task once puts all the requests out together. *)
Lemma idle_starts (post pre : list pyval) (w : world) (s : list nat) :
  pool w = (in_flight self <$> pre) ++ (Scheduled <$> post) ->
  sched w = seq (length pre) (length post) ++ s ->
  idle self (length post) w
  = mkWorld (log w ++ (detail_url self <$> post)) s (in_flight self <$> pre ++ post) (done w).
Proof.
  revert pre w. induction post as [|id post IH]; intros pre w Hp Hs.
  - cbn in *. destruct w as [l s' p d]. cbn in *. subst.
    rewrite !app_nil_r. destruct s; reflexivity.
  - cbn [length seq app] in Hs. cbn [length idle]. rewrite Hs.
    unfold tick. cbn [pool]. rewrite Hp, lookup_first_scheduled.
    change (Awaiting (url self +:+ "/" +:+ format self id)) with (in_flight self id).
    change (url self +:+ "/" +:+ format self id) with (detail_url self id).
    unfold set_task, sent. cbn [pool log sched done].
    rewrite start_first_scheduled.
    rewrite (IH (pre ++ [id])).
    + cbn [log done]. rewrite <- !app_assoc. reflexivity.
    + reflexivity.
    + cbn [sched]. rewrite length_app. cbn. rewrite Nat.add_1_r. reflexivity.
Qed.

Lemma completions_starts (post pre : list pyval) (s : list nat) :
  completions self (seq (length pre) (length post) ++ s)
    ((in_flight self <$> pre) ++ (Scheduled <$> post))
  = completions self s (in_flight self <$> pre ++ post).
Proof.
  revert pre. induction post as [|id post IH]; intros pre.
  - cbn. rewrite !app_nil_r. reflexivity.
  - cbn [length seq app completions]. rewrite lookup_first_scheduled.
    fold (in_flight self id). rewrite start_first_scheduled.
    replace (S (length pre)) with (length (pre ++ [id]))
      by (rewrite length_app; cbn; lia).
    rewrite IH, <- app_assoc. reflexivity.
Qed.

Lemma completions_in_flight (s : list nat) (p : list task) :
  NoDup s ->
  (forall f, f ∈ s -> exists u, p !! f = Some (Awaiting u)) ->
  completions self s p = s.
Proof.
  revert p. induction s as [|i s IH]; intros p Hnd Hp; [reflexivity|].
  apply NoDup_cons in Hnd as [Hi Hnd]. cbn [completions].
  destruct (Hp i) as [u Hu]; [apply elem_of_cons; auto|]. rewrite Hu.
  f_equal. apply IH; [assumption|].
  intros f Hf. destruct (Hp f) as [u' Hu']; [apply elem_of_cons; auto|].
  exists u'. rewrite list_lookup_insert_ne; [assumption|]. intros ->. contradiction.
Qed.

(** Any order of distinct tasks is the completion order of a schedule. *)
Lemma completion_order_any (names : list pyval) (order : list nat) :
  NoDup order ->
  (forall f, f ∈ order -> f < length names) ->
  completion_order self names (seq 0 (length names) ++ order) = order.
Proof.
  intros Hnd Hlt. unfold completion_order.
  pose proof (completions_starts names [] order) as H.
  cbn [length fmap list_fmap app] in H. rewrite H.
  apply completions_in_flight; [assumption|].
  intros f Hf. destruct (lookup_lt_is_Some_2 names f (Hlt f Hf)) as [id Hid].
  exists (detail_url self id). rewrite list_lookup_fmap, Hid. reflexivity.
Qed.

End Races.

(** C1. When the index lists [names]: the first advance of
    [get_all_generator] creates one task per listed name, in one go and
    before it waits for any result; once the event loop has run the first
    step of each, all the requests are out together and no task has
    finished, however many names there are; the tasks enter the queue in
    the order they finish, and a consumer is yielded the results in that
    order, the first to finish first; and that order can be any order of
    the tasks, not the listing's. *)
Theorem fan_out_in_completion_order (self : BerriesAPI) (names : list pyval) (w : world) :
  lists self names ->
  anext self Fresh w = loop self (length names) (launch names (sent (url self) w))
  /\ pool (launch names (sent (url self) w)) = Scheduled <$> names
  /\ done (launch names (sent (url self) w)) = []
  /\ (forall s,
        sched w = seq 0 (length names) ++ s ->
        idle self (length names) (launch names (sent (url self) w))
        = mkWorld (log w ++ url self :: (detail_url self <$> names)) s
            (in_flight self <$> names) [])
  /\ done (idle self (length (sched w)) (launch names (sent (url self) w)))
     = completion_order self names (sched w)
  /\ (forall moves,
        consume self (Advance :: moves) Fresh w
        = script (result_of self names <$> completion_order self names (sched w))
            (length names) (S (advances moves)))
  /\ (forall bs moves,
        result_of self names <$> completion_order self names (sched w) = Ret <$> bs ->
        advances moves < length bs ->
        consume self (Advance :: moves) Fresh w = Yielded <$> take (S (advances moves)) bs)
  /\ (forall order,
        NoDup order -> (forall f, f ∈ order -> f < length names) ->
        completion_order self names (seq 0 (length names) ++ order) = order).
Proof.
  intros Hl. split; [|split; [|split; [|split; [|split; [|split; [|split]]]]]].
  - apply anext_fresh. assumption.
  - reflexivity.
  - reflexivity.
  - intros s Hs.
    rewrite (idle_starts self names [] (launch names (sent (url self) w)) s);
      [|reflexivity|exact Hs].
    cbn [log done launch sent app]. rewrite <- app_assoc. reflexivity.
  - apply (idle_fills_queue self (launch names (sent (url self) w))).
  - intros moves. apply consume_fresh. assumption.
  - intros bs moves Hrs Hlt. rewrite (consume_fresh self names moves w Hl), Hrs.
    rewrite <- (app_nil_r (Ret <$> bs)).
    pose proof (completion_order_length self names (sched w)) as Hlen.
    rewrite <- (length_fmap (result_of self names)), Hrs, length_fmap in Hlen.
    apply script_short; lia.
  - intros order. apply completion_order_any.
Qed.

Lemma fan_out_in_completion_order_chesto_first :
  consume (Fixture.api ["cheri"; "chesto"]) [Advance; Advance; Advance] Fresh
    (Fixture.start [0; 1; 1; 0])
  = [Yielded Fixture.Chesto; Yielded Fixture.Cheri; Stopped].
Proof.
  exact (proj1 (proj2 (proj2 (proj2 (proj2 (proj2
           (fan_out_in_completion_order (Fixture.api ["cheri"; "chesto"])
              [PyStr "cheri"; PyStr "chesto"] (Fixture.start [0; 1; 1; 0]) eq_refl))))))
           [Advance; Advance]).
Defined.

(** ** Requests sent and results taken *)

Lemma omap_insert_Permutation {A B : Type} (f : A -> option B) (l : list A)
  (i : nat) (x y : A) :
  l !! i = Some x ->
  option_list (f x) ++ omap f (<[i := y]> l) ≡ₚ option_list (f y) ++ omap f l.
Proof.
  revert i. induction l as [|a l IH]; intros i Hi; [discriminate|].
  destruct i as [|i]; cbn in Hi.
  - injection Hi as ->. cbn. destruct (f x), (f y); cbn; try reflexivity.
    apply perm_swap.
  - cbn. specialize (IH i Hi). destruct (f a) as [b|]; [|exact IH].
    rewrite <- !Permutation_middle. constructor. exact IH.
Qed.

Lemma length_omap_le {A B : Type} (f : A -> option B) (l : list A) :
  length (omap f l) <= length l.
Proof. induction l as [|a l IH]; cbn; [lia|]. destruct (f a); cbn; lia. Qed.

Lemma omap_lookup_seq {A : Type} (l : list A) (n : nat) :
  omap (fun f => l !! f) (seq 0 n) = take n l.
Proof.
  induction n as [|n IH]; [reflexivity|].
  rewrite seq_S, omap_app, IH. cbn.
  destruct (l !! n) as [x|] eqn:E.
  - rewrite (take_S_r _ _ _ E). reflexivity.
  - apply lookup_ge_None in E. rewrite !take_ge by lia. apply app_nil_r.
Qed.

Lemma lookups_Permutation {A : Type} (l : list A) (order : list nat) (items : list A) :
  order ≡ₚ seq 0 (length l) ->
  Forall2 (fun f b => l !! f = Some b) order items ->
  items ≡ₚ l.
Proof.
  intros Hp Hf.
  assert (H : omap (fun f => l !! f) order = items).
  { clear Hp. induction Hf as [|f b order items Hb _ IH]; [reflexivity|].
    cbn. rewrite Hb, IH. reflexivity. }
  rewrite <- H, Hp, omap_lookup_seq, take_ge by lia. reflexivity.
Qed.

Section Progress.

Variable self : BerriesAPI.

Lemma advanced_refl (w : world) : advanced self w w 0.
Proof.
  exists []. rewrite app_nil_r. repeat split; [reflexivity|lia].
Qed.

Lemma advanced_trans (w w1 w2 : world) (k1 k2 : nat) :
  advanced self w w1 k1 -> advanced self w1 w2 k2 -> advanced self w w2 (k1 + k2).
Proof.
  intros (L1 & Hl1 & Hu1 & Hc1 & Hp1) (L2 & Hl2 & Hu2 & Hc2 & Hp2).
  exists (L1 ++ L2). split; [|split; [|split]].
  - rewrite Hl2, Hl1, app_assoc. reflexivity.
  - rewrite Hu1, Hu2, app_assoc. reflexivity.
  - lia.
  - lia.
Qed.

Lemma advanced_tick (i : nat) (w : world) : advanced self w (tick self i w) 0.
Proof.
  unfold tick. destruct (pool w !! i) as [[id|u|r]|] eqn:E; try apply advanced_refl.
  - pose proof (omap_insert_Permutation
                  (fun t => match t with
                            | Scheduled id => Some (detail_url self id)
                            | _ => None
                            end)
                  _ _ _ (Awaiting (url self +:+ "/" +:+ format self id)) E) as Hu.
    pose proof (omap_insert_Permutation
                  (fun t => match t with Finished r => Some r | _ => None end)
                  _ _ _ (Awaiting (url self +:+ "/" +:+ format self id)) E) as Hc.
    apply Permutation_length in Hc.
    exists [url self +:+ "/" +:+ format self id]. cbn [log pool done set_task sent].
    split; [reflexivity|]. split; [|split].
    + symmetry. exact Hu.
    + unfold finished_results. cbn in Hc. lia.
    + apply length_insert.
  - pose proof (omap_insert_Permutation
                  (fun t => match t with
                            | Scheduled id => Some (detail_url self id)
                            | _ => None
                            end)
                  _ _ _ (Finished (receive u (client self u) ≫= get_rest)) E) as Hu.
    pose proof (omap_insert_Permutation
                  (fun t => match t with Finished r => Some r | _ => None end)
                  _ _ _ (Finished (receive u (client self u) ≫= get_rest)) E) as Hc.
    apply Permutation_length in Hc.
    exists []. cbn [log pool done set_task put_nowait].
    split; [rewrite app_nil_r; reflexivity|]. split; [|split].
    + symmetry. exact Hu.
    + unfold finished_results. rewrite length_app. cbn in Hc. cbn. lia.
    + apply length_insert.
Qed.

Lemma advanced_taken (w : world) (s : list nat) (f : nat) (q : list nat) :
  done w = f :: q -> advanced self w (mkWorld (log w) s (pool w) q) 1.
Proof.
  intros E. exists []. cbn [log pool done]. rewrite app_nil_r, E. cbn.
  repeat split; [reflexivity|lia].
Qed.

Lemma queue_get_advanced (s : list nat) (w : world) (f : nat) (w' : world) :
  queue_get self s w = Some (f, w') -> advanced self w w' 1.
Proof.
  revert w. induction s as [|i s IH]; intros w; cbn [queue_get].
  - destruct (done w) as [|f0 q] eqn:E; [discriminate|]. intros [= <- <-].
    eapply advanced_taken. exact E.
  - destruct (done w) as [|f0 q] eqn:E.
    + intros H. apply (advanced_trans _ _ _ 0 1 (advanced_tick i w)), IH, H.
    + intros [= <- <-]. eapply advanced_taken. exact E.
Qed.

Lemma collect_advanced (fuel todo : nat) (acc items : list Berry) (w w' : world) :
  collect (get_all_generator self) fuel (Looping todo) acc w = Some (Ret items, w') ->
  advanced self w w' todo.
Proof.
  revert todo acc w. induction fuel as [|fuel IH]; intros todo acc w; [discriminate|].
  cbn [collect gen_anext get_all_generator anext]. destruct todo as [|todo]; cbn [loop].
  - intros [= <- <-]. apply advanced_refl.
  - destruct (queue_get self (sched w) w) as [[f w1]|] eqn:E; [|discriminate].
    apply queue_get_advanced in E.
    destruct (result w1 f) as [berry|e]; [|discriminate].
    intros H. apply (advanced_trans _ _ _ 1 todo E), (IH _ _ _ H).
Qed.

Lemma all_finished_unsent (p : list task) :
  length p <= length (finished_results p) -> unsent self p = [].
Proof.
  induction p as [|t p IH]; [reflexivity|].
  pose proof (length_omap_le
                (fun t => match t with Finished r => Some r | _ => None end) p) as Hle.
  unfold finished_results in *. destruct t as [id|u|r]; cbn; intros H; try lia.
  apply IH. lia.
Qed.

Lemma unsent_scheduled (names : list pyval) :
  unsent self (Scheduled <$> names) = detail_url self <$> names.
Proof. induction names as [|id names IH]; [reflexivity|]. cbn. rewrite <- IH. reflexivity. Qed.

Lemma finished_scheduled (names : list pyval) :
  finished_results (Scheduled <$> names) = [].
Proof. induction names as [|id names IH]; [reflexivity|]. exact IH. Qed.

(** Once every result has been taken, every request has been sent, once. *)
Lemma get_all_log (names : list pyval) (fuel : nat) (w w' : world) (items : list Berry) :
  lists self names ->
  get_all self fuel w = Some (Ret items, w') ->
  exists out, log w' = log w ++ url self :: out
              /\ out ≡ₚ detail_url self <$> names.
Proof.
  intros Hl H. destruct fuel as [|fuel]; [discriminate|].
  rewrite (get_all_fresh self names fuel w Hl) in H.
  apply collect_advanced in H. destruct H as (L & Hlog & Hu & Hc & Hp).
  cbn [launch sent pool log done] in *.
  rewrite finished_scheduled, unsent_scheduled in *. cbn in Hc.
  rewrite length_fmap in Hp.
  rewrite all_finished_unsent, app_nil_r in Hu by lia.
  exists L. rewrite Hlog, <- app_assoc. split; [reflexivity|]. symmetry. exact Hu.
Qed.

End Progress.

(** ** Complete runs *)

Lemma collect_drive {W A : Type} (G : AsyncGenerator W A) (fuel : nat)
  (g : gen_frame G) (acc items : list A) (w w' : W) :
  collect G fuel g acc w = Some (Ret items, w') ->
  exists ys, items = acc ++ ys
             /\ drive G fuel g w = ((Yielded <$> ys) ++ [Stopped], Some w').
Proof.
  revert g acc w. induction fuel as [|fuel IH]; intros g acc w; [discriminate|].
  cbn [collect drive].
  destruct (gen_anext G g w) as [[[[a|e|] g'] w1]|]; try discriminate.
  - intros H. destruct (IH _ _ _ H) as (ys & -> & Hd).
    exists (a :: ys). rewrite Hd, <- app_assoc. split; reflexivity.
  - intros [= <- <-]. exists []. rewrite app_nil_r. split; reflexivity.
Qed.

Section Complete.

Variable self : BerriesAPI.

Lemma fetches_fetched (id : pyval) (berry : Berry) :
  fetches self id berry <-> fetched self id = Ret berry.
Proof.
  unfold fetches. split.
  - intros H. specialize (H (mkWorld [] [] [] [])). rewrite get_unfold in H. congruence.
  - intros H w. rewrite get_unfold, H. reflexivity.
Qed.

Lemma results_in_order (names : list pyval) (berries : list Berry) (order : list nat) :
  Forall2 (fetches self) names berries ->
  (forall f, f ∈ order -> f < length names) ->
  exists items,
    result_of self names <$> order = Ret <$> items
    /\ Forall2 (fun f b => berries !! f = Some b) order items.
Proof.
  intros Hf. induction order as [|f order IH]; intros Hlt.
  - exists []. split; constructor.
  - destruct IH as (items & Hr & Hi); [intros g Hg; apply Hlt, elem_of_cons; auto|].
    destruct (lookup_lt_is_Some_2 names f) as [id Hid]; [apply Hlt, elem_of_cons; auto|].
    destruct (Forall2_lookup_l _ _ _ _ _ Hf Hid) as (b & Hb & Hfetch).
    apply fetches_fetched in Hfetch.
    exists (b :: items). split; [|constructor; assumption].
    cbn. rewrite Hr. unfold result_of. rewrite Hid, Hfetch. reflexivity.
Qed.

(** With every detail fetch successful and a schedule that completes them
    all, [get_all] returns their Berries in completion order. *)
Lemma get_all_complete (names : list pyval) (berries : list Berry) (w : world) (fuel : nat) :
  lists self names ->
  Forall2 (fetches self) names berries ->
  completes (length names) (sched w) ->
  length names < fuel ->
  exists items w',
    get_all self fuel w = Some (Ret items, w')
    /\ Ret <$> items = result_of self names <$> completion_order self names (sched w)
    /\ Forall2 (fun f b => berries !! f = Some b)
         (completion_order self names (sched w)) items
    /\ completion_order self names (sched w) ≡ₚ seq 0 (length names).
Proof.
  intros Hl Hf Hc Hfuel.
  pose proof (completion_order_complete self names (sched w) Hc) as Hp.
  destruct (results_in_order names berries (completion_order self names (sched w)) Hf)
    as (items & Hr & Hi); [apply completion_order_lt|].
  assert (Hlen : length items = length names).
  { rewrite <- (Forall2_length _ _ _ Hi), Hp. apply length_seq. }
  pose proof (get_all_gathered self names fuel w Hl Hfuel) as H.
  rewrite Hr, <- (app_nil_r (Ret <$> items)), gathered_yields in H by lia.
  rewrite Hlen, Nat.sub_diag in H. cbn in H.
  destruct (get_all self fuel w) as [[r w']|]; [|discriminate].
  injection H as ->. eauto 10.
Qed.

End Complete.

(** C4. When the index fetch and every detail fetch succeed and the
    schedule completes every task: [get_all] returns the list a consumer
    gets by advancing [get_all_generator] to its end, the Berries in the
    order their fetches completed; that list is a permutation of the
    Berries [get] returns for the listed names. *)
Theorem get_all_drains_generator (self : BerriesAPI) (names : list pyval)
  (berries : list Berry) (w : world) (fuel : nat) :
  lists self names ->
  Forall2 (fetches self) names berries ->
  completes (length names) (sched w) ->
  length names < fuel ->
  exists items w',
    get_all self fuel w = Some (Ret items, w')
    /\ drive (get_all_generator self) fuel Fresh w
       = ((Yielded <$> items) ++ [Stopped], Some w')
    /\ Ret <$> items = result_of self names <$> completion_order self names (sched w)
    /\ items ≡ₚ berries.
Proof.
  intros Hl Hf Hc Hfuel.
  destruct (get_all_complete self names berries w fuel Hl Hf Hc Hfuel)
    as (items & w' & Hall & Hr & Hi & Hp).
  exists items, w'. split; [exact Hall|]. split; [|split; [exact Hr|]].
  - destruct (collect_drive _ _ _ _ _ _ _ Hall) as (ys & -> & Hd). exact Hd.
  - apply (lookups_Permutation berries (completion_order self names (sched w))); [|exact Hi].
    rewrite <- (Forall2_length _ _ _ Hf). exact Hp.
Qed.

Lemma get_all_drains_generator_two :
  exists items w',
    get_all (Fixture.api ["cheri"; "chesto"]) 3 (Fixture.start [0; 1; 1; 0])
    = Some (Ret items, w')
    /\ drive (get_all_generator (Fixture.api ["cheri"; "chesto"])) 3 Fresh
         (Fixture.start [0; 1; 1; 0])
       = ((Yielded <$> items) ++ [Stopped], Some w')
    /\ Ret <$> items
       = result_of (Fixture.api ["cheri"; "chesto"]) [PyStr "cheri"; PyStr "chesto"]
           <$> completion_order (Fixture.api ["cheri"; "chesto"])
                 [PyStr "cheri"; PyStr "chesto"] [0; 1; 1; 0]
    /\ items ≡ₚ [Fixture.Cheri; Fixture.Chesto].
Proof.
  apply (get_all_drains_generator (Fixture.api ["cheri"; "chesto"])
           [PyStr "cheri"; PyStr "chesto"] [Fixture.Cheri; Fixture.Chesto]
           (Fixture.start [0; 1; 1; 0]) 3).
  - reflexivity.
  - repeat constructor.
  - intros i Hi. destruct i as [|[|i]]; cbn in *; lia.
  - cbn. lia.
Defined.

(** ** One fetch per index entry *)

Lemma names_comprehension (listing : list pyval) (names : list string) :
  Forall2 is_entry listing names ->
  comprehension (fun berry => getitem berry "name") listing = Ret (PyStr <$> names).
Proof.
  induction 1 as [|entry n listing names (es & -> & Hn) _ IH]; [reflexivity|].
  rewrite comprehension_cons, IH. run_res. reflexivity.
Qed.

Lemma lists_of_entries (self : BerriesAPI) (status : Z) (entries : list (string * pyval))
  (listing : list pyval) (names : list string) :
  client self (url self) = Replied status (Some (PyDict entries)) ->
  success status ->
  dict_get "results" entries = Some (PyList listing) ->
  Forall2 is_entry listing names ->
  lists self (PyStr <$> names).
Proof.
  intros Hr Hs Hres Hnames. unfold lists. rewrite Hr. cbn [receive].
  rewrite bind_Ret. unfold names_of, raise_for_status.
  apply (is_success_iff (url self) status (Some (PyDict entries))) in Hs. rewrite Hs.
  rewrite bind_Ret. unfold json. cbn [content]. run_res. unfold iter. run_res.
  apply names_comprehension. assumption.
Qed.

Lemma names_in_order (names : list string) (order : list nat) :
  (forall f, f ∈ order -> f < length names) ->
  exists called, Forall2 (fun f n => names !! f = Some n) order called.
Proof.
  induction order as [|f order IH]; intros Hlt; [exists []; constructor|].
  destruct IH as (called & Hc); [intros g Hg; apply Hlt, elem_of_cons; auto|].
  destruct (lookup_lt_is_Some_2 names f) as [n Hn]; [apply Hlt, elem_of_cons; auto|].
  exists (n :: called). constructor; assumption.
Qed.

Lemma berries_in_order (B : string -> Berry) (names : list string) (order : list nat)
  (called : list string) (items : list Berry) :
  Forall2 (fun f n => names !! f = Some n) order called ->
  Forall2 (fun f b => (B <$> names) !! f = Some b) order items ->
  items = B <$> called.
Proof.
  intros Hc. revert items. induction Hc as [|f n order called Hn _ IH]; intros items Hi.
  - inversion Hi. reflexivity.
  - inversion Hi as [|? b ? items' Hb Hi']; subst.
    rewrite list_lookup_fmap, Hn in Hb. injection Hb as <-.
    cbn. rewrite (IH _ Hi'). reflexivity.
Qed.

(** C10. When the index lists the entries whose names are [names]: the
    fan-out has one task per entry, in listing order, each holding the name
    string of its entry, and its request goes to [url/name]. When these
    fetches succeed ([B n] the Berry for the name [n]) and the schedule
    completes them all, the names whose Berries [get_all] returns, in order,
    are a permutation of [names], and the detail requests sent are a
    permutation of their URLs: a name listed [k] times is fetched [k] times
    and yields [k] Berries. *)
Theorem one_fetch_per_entry (self : BerriesAPI) (status : Z)
  (entries : list (string * pyval)) (listing : list pyval) (names : list string)
  (B : string -> Berry) (w : world) (fuel : nat) :
  client self (url self) = Replied status (Some (PyDict entries)) ->
  success status ->
  dict_get "results" entries = Some (PyList listing) ->
  Forall2 is_entry listing names ->
  anext self Fresh w
  = loop self (length names) (launch (PyStr <$> names) (sent (url self) w))
  /\ pool (launch (PyStr <$> names) (sent (url self) w))
     = (fun n => Scheduled (PyStr n)) <$> names
  /\ (forall n, detail_url self (PyStr n) = url self +:+ "/" +:+ n)
  /\ (Forall (fun n => fetches self (PyStr n) (B n)) names ->
      completes (length names) (sched w) ->
      length names < fuel ->
      exists called out w',
        get_all self fuel w = Some (Ret (B <$> called), w')
        /\ called ≡ₚ names
        /\ (forall n, count_occ String.string_dec called n
                      = count_occ String.string_dec names n)
        /\ log w' = log w ++ url self :: out
        /\ out ≡ₚ (fun n => url self +:+ "/" +:+ n) <$> names).
Proof.
  intros Hr Hs Hres Hnames.
  pose proof (lists_of_entries self status entries listing names Hr Hs Hres Hnames) as Hl.
  split; [|split; [|split]].
  - rewrite (anext_fresh self _ w Hl), length_fmap. reflexivity.
  - cbn [pool launch]. rewrite <- list_fmap_compose. reflexivity.
  - reflexivity.
  - intros Hfetch Hc Hfuel.
    assert (Hf : Forall2 (fetches self) (PyStr <$> names) (B <$> names)).
    { apply Forall2_fmap, Forall_Forall2_diag. exact Hfetch. }
    rewrite <- (length_fmap PyStr) in Hc, Hfuel.
    destruct (get_all_complete self _ _ w fuel Hl Hf Hc Hfuel)
      as (items & w' & Hall & _ & Hi & Hp).
    destruct (get_all_log self _ fuel w w' items Hl Hall) as (out & Hlog & Hout).
    rewrite length_fmap in Hp.
    destruct (names_in_order names (completion_order self (PyStr <$> names) (sched w)))
      as (called & Hcalled).
    { intros f Hin. rewrite Hp in Hin. apply elem_of_seq in Hin. lia. }
    assert (Hperm : called ≡ₚ names)
      by (apply (lookups_Permutation names _ called Hp Hcalled)).
    exists called, out, w'.
    rewrite <- (berries_in_order B names _ called items Hcalled Hi).
    split; [exact Hall|]. split; [exact Hperm|]. split; [|split; [exact Hlog|]].
    + apply Permutation_count_occ. exact Hperm.
    + rewrite Hout, <- list_fmap_compose. reflexivity.
Qed.

Lemma one_fetch_per_entry_cheri_twice :
  exists called out w',
    get_all (Fixture.api ["cheri"; "chesto"; "cheri"]) 4
      (Fixture.start [0; 1; 2; 2; 1; 0])
    = Some (Ret (Fixture.berry_named <$> called), w')
    /\ called ≡ₚ ["cheri"; "chesto"; "cheri"]
    /\ (forall n, count_occ String.string_dec called n
                  = count_occ String.string_dec ["cheri"; "chesto"; "cheri"] n)
    /\ log w' = log (Fixture.start [0; 1; 2; 2; 1; 0]) ++ Fixture.base :: out
    /\ out ≡ₚ (fun n => Fixture.base +:+ "/" +:+ n) <$> ["cheri"; "chesto"; "cheri"].
Proof.
  assert (Hs : success 200) by (unfold success; lia).
  assert (He : Forall2 is_entry (map Fixture.entry ["cheri"; "chesto"; "cheri"])
                 ["cheri"; "chesto"; "cheri"]).
  { repeat (constructor; [eexists; split; reflexivity|]). constructor. }
  apply (proj2 (proj2 (proj2
           (one_fetch_per_entry (Fixture.api ["cheri"; "chesto"; "cheri"]) 200
              [("count", PyInt 3);
               ("results", PyList (map Fixture.entry ["cheri"; "chesto"; "cheri"]))]
              (map Fixture.entry ["cheri"; "chesto"; "cheri"])
              ["cheri"; "chesto"; "cheri"] Fixture.berry_named
              (Fixture.start [0; 1; 2; 2; 1; 0]) 4 eq_refl Hs eq_refl He)))).
  - repeat constructor.
  - intros i Hi. destruct i as [|[|[|i]]]; cbn in *; lia.
  - cbn. lia.
Defined.

(** * Further properties of [get] *)

Lemma comprehension_Forall2 {A B : Type} (f : A -> res B) (l : list A) (ys : list B) :
  comprehension f l = Ret ys <-> Forall2 (fun x y => f x = Ret y) l ys.
Proof.
  revert ys. induction l as [|x l IH]; intros ys; cbn [comprehension].
  - split; [intros [= <-]; constructor|intros H; inversion H; reflexivity].
  - destruct (f x) as [y|e] eqn:E.
    + rewrite bind_Ret. destruct (comprehension f l) as [ys'|e].
      * rewrite bind_Ret. split.
        -- intros [= <-]. constructor; [assumption|]. apply IH. reflexivity.
        -- intros H. inversion H as [|? y' ? ys'' Hy Hys]; subst.
           rewrite E in Hy. injection Hy as <-.
           apply IH in Hys. injection Hys as <-. reflexivity.
      * rewrite bind_Raise. split; [discriminate|].
        intros H. inversion H as [|? y' ? ys'' Hy Hys]; subst.
        apply IH in Hys. discriminate.
    + rewrite bind_Raise. split; [discriminate|].
      intros H. inversion H as [|? y' ? ys'' Hy Hys]; subst. congruence.
Qed.


(** The first element that raises ends the comprehension with its exception. *)
Lemma comprehension_first_failure {A B : Type} (f : A -> res B)
  (good : list A) (ys : list B) (bad : A) (rest : list A) (e : exn) :
  Forall2 (fun x y => f x = Ret y) good ys ->
  f bad = Raise e ->
  comprehension f (good ++ bad :: rest) = Raise e.
Proof.
  intros Hg Hb. induction Hg as [|x y good ys Hx _ IH]; cbn [app comprehension].
  - rewrite Hb. reflexivity.
  - rewrite Hx, bind_Ret, IH. reflexivity.
Qed.

Lemma Flavor_of_reads (item : pyval) (fl : Flavor) :
  Flavor_of item = Ret fl <-> reads_flavor item fl.
Proof.
  unfold Flavor_of, reads_flavor. split.
  - destruct (getitem item "flavor") as [inner|e] eqn:Ei; [|rewrite ?bind_Raise; discriminate].
    rewrite !bind_Ret.
    destruct (getitem inner "name") as [n|e] eqn:En; [|rewrite ?bind_Raise; discriminate]. rewrite !bind_Ret.
    destruct (getitem inner "url") as [u|e] eqn:Eu; [|rewrite ?bind_Raise; discriminate]. rewrite !bind_Ret.
    destruct (getitem item "potency") as [p|e] eqn:Ep; [|rewrite ?bind_Raise; discriminate]. rewrite !bind_Ret.
    intros [= <-]. exists inner. auto.
  - intros (inner & -> & Hn & Hu & Hp).
    repeat first [rewrite bind_Ret | rewrite Hn | rewrite Hu | rewrite Hp].
    destruct fl; reflexivity.
Qed.

Lemma Berry_of_reads (data : pyval) (berry : Berry) :
  Berry_of data = Ret berry <-> reads_berry data berry.
Proof.
  unfold Berry_of, reads_berry. split.
  - destruct (getitem data "id") as [i|e] eqn:Ei; [|rewrite ?bind_Raise; discriminate]. rewrite !bind_Ret.
    destruct (getitem data "name") as [n|e] eqn:En; [|rewrite ?bind_Raise; discriminate]. rewrite !bind_Ret.
    destruct (getitem data "firmness") as [firm|e] eqn:Ef; [|rewrite ?bind_Raise; discriminate].
    rewrite !bind_Ret.
    destruct (getitem firm "name") as [fn|e] eqn:Efn; [|rewrite ?bind_Raise; discriminate]. rewrite !bind_Ret.
    destruct (getitem firm "url") as [fu|e] eqn:Efu; [|rewrite ?bind_Raise; discriminate]. rewrite !bind_Ret.
    destruct (getitem data "flavors") as [raw|e] eqn:Er; [|rewrite ?bind_Raise; discriminate]. rewrite !bind_Ret.
    destruct (iter raw) as [each|e] eqn:Ee; [|rewrite ?bind_Raise; discriminate]. rewrite !bind_Ret.
    destruct (comprehension Flavor_of each) as [fls|e] eqn:Ec; [|rewrite ?bind_Raise; discriminate].
    rewrite bind_Ret. intros [= <-]. exists firm, raw, each. cbn.
    repeat (split; [reflexivity || assumption|]).
    apply comprehension_Forall2 in Ec.
    eapply Forall2_impl; [exact Ec|]. intros item fl H. apply Flavor_of_reads. exact H.
  - intros (firm & raw & each & -> & -> & -> & Hfn & Hfu & -> & He & Hfl).
    assert (Hc : comprehension Flavor_of each = Ret (Berry_flavors berry)).
    { apply comprehension_Forall2. eapply Forall2_impl; [exact Hfl|].
      intros item fl H. apply Flavor_of_reads. exact H. }
    repeat first [rewrite bind_Ret | rewrite Hfn | rewrite Hfu | rewrite He | rewrite Hc].
    destruct berry as [? ? [? ?] ?]; reflexivity.
Qed.





(** X2. When [get] returns a Berry, the reply had a success status and a
    body that decodes, and every field of the Berry is what subscripting
    that body gives: [id], [name], [firmness.name], [firmness.url], and one
    flavor per element of [flavors], in order. *)
Theorem get_returns_what_it_read (self : BerriesAPI) (id : pyval) (w w' : world)
  (berry : Berry) :
  get self id w = Some (Ret berry, w') ->
  exists status data,
    client self (detail_url self id) = Replied status (Some data)
    /\ success status
    /\ reads_berry data berry
    /\ w' = sent (detail_url self id) w.
Proof.
  rewrite get_unfold. intros [= Hf <-]. unfold fetched in Hf.
  destruct (client self (detail_url self id)) as [why|status body]; cbn [receive] in Hf;
    [rewrite bind_Raise in Hf; discriminate|].
  rewrite bind_Ret in Hf. unfold get_rest, raise_for_status in Hf.
  destruct (is_success _) eqn:Es; [|rewrite bind_Raise in Hf; discriminate].
  apply is_success_iff in Es. rewrite bind_Ret in Hf. unfold json in Hf. cbn [content] in Hf.
  destruct body as [data|]; [|rewrite bind_Raise in Hf; discriminate].
  rewrite bind_Ret in Hf. apply Berry_of_reads in Hf.
  exists status, data. auto.
Qed.

Lemma get_returns_what_it_read_cheri :
  exists status data,
    client (Fixture.api []) (detail_url (Fixture.api []) (PyStr "cheri"))
    = Replied status (Some data)
    /\ success status
    /\ reads_berry data Fixture.Cheri
    /\ sent (Fixture.base +:+ "/cheri") (Fixture.start [])
       = sent (detail_url (Fixture.api []) (PyStr "cheri")) (Fixture.start []).
Proof.
  apply (get_returns_what_it_read (Fixture.api []) (PyStr "cheri") (Fixture.start [])).
  reflexivity.
Defined.

Lemma Berry_of_agree (e1 e2 : list (string * pyval)) :
  (forall k, In k required -> dict_get k e1 = dict_get k e2) ->
  Berry_of (PyDict e1) = Berry_of (PyDict e2).
Proof.
  intros H. unfold Berry_of, getitem.
  rewrite (H "id"), (H "name"), (H "firmness"), (H "flavors") by (cbn; auto).
  reflexivity.
Qed.

(** X3. [get] reads the keys [id], [name], [firmness] and [flavors] of the
    body and nothing else: two success replies whose bodies are objects
    that agree on these four keys give the same result, whatever other keys
    they hold and in whatever order. *)
Theorem get_reads_four_keys (self : BerriesAPI) (other : string -> reply) (id : pyval)
  (w : world) (s1 s2 : Z) (e1 e2 : list (string * pyval)) :
  client self (detail_url self id) = Replied s1 (Some (PyDict e1)) ->
  other (detail_url self id) = Replied s2 (Some (PyDict e2)) ->
  success s1 -> success s2 ->
  (forall k, In k required -> dict_get k e1 = dict_get k e2) ->
  get (mkAPI (url self) other (repr self)) id w = get self id w.
Proof.
  intros H1 H2 Hs1 Hs2 Hagree.
  assert (Hu : detail_url (mkAPI (url self) other (repr self)) id = detail_url self id)
    by (destruct id; reflexivity).
  rewrite !get_unfold, Hu. f_equal. f_equal.
  rewrite (fetched_success self id s1 _ H1 Hs1).
  rewrite (fetched_success (mkAPI (url self) other (repr self)) id s2 (PyDict e2));
    [|rewrite Hu; exact H2|exact Hs2].
  symmetry. apply Berry_of_agree. exact Hagree.
Qed.

Lemma get_reads_four_keys_extra_key :
  get (mkAPI (url (Fixture.api_serving Fixture.misshapen))
         (Fixture.serving
            (PyDict [("size", PyInt 20); ("flavors", PyDict []);
                     ("firmness", Fixture.attr "soft" "u1");
                     ("name", PyInt 7); ("id", PyStr "one")]))
         (repr (Fixture.api_serving Fixture.misshapen)))
    (PyInt 1) (Fixture.start [])
  = get (Fixture.api_serving Fixture.misshapen) (PyInt 1) (Fixture.start []).
Proof.
  apply (get_reads_four_keys (Fixture.api_serving Fixture.misshapen) _ (PyInt 1)
           (Fixture.start []) 200 200
           [("id", PyStr "one"); ("name", PyInt 7);
            ("firmness", Fixture.attr "soft" "u1"); ("flavors", PyDict [])]
           [("size", PyInt 20); ("flavors", PyDict []);
            ("firmness", Fixture.attr "soft" "u1");
            ("name", PyInt 7); ("id", PyStr "one")]).
  - reflexivity.
  - reflexivity.
  - unfold success. lia.
  - unfold success. lia.
  - intros k [<-|[<-|[<-|[<-|[]]]]]; reflexivity.
Defined.

Lemma is_flavor_Flavor_of (items : list pyval) (fls : list Flavor) :
  Forall2 is_flavor items fls -> Forall2 (fun x y => Flavor_of x = Ret y) items fls.
Proof.
  intros H. apply comprehension_Forall2, flavors_comprehension. exact H.
Qed.

(** X4. One bad element of the [flavors] array fails the whole fetch: when
    the elements before it are well formed and it is an object without
    [flavor], [get] raises [KeyError "flavor"]; when it has a [flavor]
    object with [name] and [url] but no [potency], [get] raises
    [KeyError "potency"]. No Berry is returned, whatever follows in the array. *)
Theorem get_bad_flavor_entry (self : BerriesAPI) (id : pyval) (w : world) (status : Z)
  (entries es : list (string * pyval)) (vid vname : pyval)
  (good rest : list pyval) (fls : list Flavor) :
  client self (detail_url self id) = Replied status (Some (PyDict entries)) ->
  success status ->
  dict_get "id" entries = Some vid ->
  dict_get "name" entries = Some vname ->
  firmness_ok entries ->
  dict_get "flavors" entries = Some (PyList (good ++ PyDict es :: rest)) ->
  Forall2 is_flavor good fls ->
  (dict_get "flavor" es = None ->
   get self id w = Some (Raise (KeyError "flavor"), sent (detail_url self id) w))
  /\ (forall inner n u,
        dict_get "flavor" es = Some (PyDict inner) ->
        dict_get "name" inner = Some n ->
        dict_get "url" inner = Some u ->
        dict_get "potency" es = None ->
        get self id w = Some (Raise (KeyError "potency"), sent (detail_url self id) w)).
Proof.
  intros Hr Hs Hid Hname (firm & fn & fu & Hfirm & Hfn & Hfu) Hfl Hgood.
  apply is_flavor_Flavor_of in Hgood.
  assert (Hb : forall e, Flavor_of (PyDict es) = Raise e ->
               get self id w = Some (Raise e, sent (detail_url self id) w)).
  { intros e He. rewrite get_unfold, (fetched_success _ _ _ _ Hr Hs).
    unfold Berry_of. run_res. unfold iter. run_res.
    rewrite (comprehension_first_failure _ _ _ _ _ _ Hgood He). reflexivity. }
  split.
  - intros Hnone. apply Hb. unfold Flavor_of. run_res. reflexivity.
  - intros inner n u Hi Hn Hu Hp. apply Hb. unfold Flavor_of. run_res. reflexivity.
Qed.

Lemma get_bad_flavor_entry_no_potency :
  get (Fixture.api_serving
         (PyDict [("id", PyInt 1); ("name", PyStr "cheri");
                  ("firmness", Fixture.attr "soft" "u1");
                  ("flavors",
                   PyList [PyDict [("flavor", Fixture.attr "spicy" "u2");
                                   ("potency", PyInt 10)];
                           PyDict [("flavor", Fixture.attr "dry" "u4")]])]))
    (PyInt 1) (Fixture.start [])
  = Some (Raise (KeyError "potency"), sent (Fixture.base +:+ "/1") (Fixture.start [])).
Proof.
  assert (Hs : success 200) by (unfold success; lia).
  assert (Hok : firmness_ok [("id", PyInt 1); ("name", PyStr "cheri");
                             ("firmness", Fixture.attr "soft" "u1");
                             ("flavors",
                              PyList [PyDict [("flavor", Fixture.attr "spicy" "u2");
                                              ("potency", PyInt 10)];
                                      PyDict [("flavor", Fixture.attr "dry" "u4")]])]).
  { eexists _, _, _. repeat split; reflexivity. }
  assert (Hg : Forall2 is_flavor
                 [PyDict [("flavor", Fixture.attr "spicy" "u2"); ("potency", PyInt 10)]]
                 [mkFlavor (PyStr "spicy") (PyStr "u2") (PyInt 10)]).
  { constructor; [|constructor]. eexists _, _. repeat split; reflexivity. }
  exact (proj2 (get_bad_flavor_entry
                  (Fixture.api_serving
                     (PyDict [("id", PyInt 1); ("name", PyStr "cheri");
                              ("firmness", Fixture.attr "soft" "u1");
                              ("flavors",
                               PyList [PyDict [("flavor", Fixture.attr "spicy" "u2");
                                               ("potency", PyInt 10)];
                                       PyDict [("flavor", Fixture.attr "dry" "u4")]])]))
                  (PyInt 1) (Fixture.start []) 200
                  [("id", PyInt 1); ("name", PyStr "cheri");
                   ("firmness", Fixture.attr "soft" "u1");
                   ("flavors",
                    PyList [PyDict [("flavor", Fixture.attr "spicy" "u2");
                                    ("potency", PyInt 10)];
                            PyDict [("flavor", Fixture.attr "dry" "u4")]])]
                  [("flavor", Fixture.attr "dry" "u4")] (PyInt 1) (PyStr "cheri")
                  [PyDict [("flavor", Fixture.attr "spicy" "u2"); ("potency", PyInt 10)]]
                  [] [mkFlavor (PyStr "spicy") (PyStr "u2") (PyInt 10)]
                  eq_refl Hs eq_refl eq_refl Hok eq_refl Hg)
           [("name", PyStr "dry"); ("url", PyStr "u4")] (PyStr "dry") (PyStr "u4")
           eq_refl eq_refl eq_refl eq_refl).
Defined.


(** * Further properties of the fan-out *)

Lemma anext_index_failure (self : BerriesAPI) (w : world) (e : exn) :
  receive (url self) (client self (url self)) ≫= names_of = Raise e ->
  anext self Fresh w = Some (Raised e, Closed, sent (url self) w).
Proof. intros H. unfold anext, client_get. rewrite H. reflexivity. Qed.

Lemma index_failure (self : BerriesAPI) (w : world) (e : exn) :
  receive (url self) (client self (url self)) ≫= names_of = Raise e ->
  anext self Fresh w = Some (Raised e, Closed, sent (url self) w)
  /\ (forall fuel, get_all self (S fuel) w = Some (Raise e, sent (url self) w))
  /\ (forall moves,
        consume self (Advance :: moves) Fresh w
        = Raised e :: replicate (advances moves) Stopped).
Proof.
  intros H. pose proof (anext_index_failure self w e H) as Ha.
  split; [exact Ha|]. split.
  - intros fuel. unfold get_all. cbn [collect gen_anext get_all_generator].
    rewrite Ha. reflexivity.
  - intros moves. cbn [consume]. rewrite Ha, consume_closed. reflexivity.
Qed.

Lemma index_body (self : BerriesAPI) (status : Z) (entries : list (string * pyval)) :
  client self (url self) = Replied status (Some (PyDict entries)) ->
  success status ->
  receive (url self) (client self (url self)) ≫= names_of
  = (results ← getitem (PyDict entries) "results";
     each ← iter results;
     comprehension (fun berry => getitem berry "name") each).
Proof.
  intros Hr Hs. rewrite Hr. cbn [receive]. rewrite bind_Ret.
  unfold names_of, raise_for_status.
  apply (is_success_iff (url self) status (Some (PyDict entries))) in Hs. rewrite Hs.
  reflexivity.
Qed.

Lemma is_entry_getitem (good : list pyval) (names : list string) :
  Forall2 is_entry good names ->
  Forall2 (fun x y => getitem x "name" = Ret y) good (PyStr <$> names).
Proof.
  induction 1 as [|entry n good names (es & -> & Hn) _ IH]; constructor; [|exact IH].
  apply getitem_dict. exact Hn.
Qed.

(** X6. A malformed index stops [get_all_generator] before any detail
    fetch: when the index body has no [results], or [results] holds, after
    well-formed entries, an object without [name], the first advance raises
    the [KeyError] for that key and ends the generator, [get_all] raises it
    too, and the index request is the only request sent: no task is created,
    not even for the well-formed entries. *)
Theorem malformed_index_launches_nothing (self : BerriesAPI) (w : world) (status : Z)
  (entries : list (string * pyval)) :
  client self (url self) = Replied status (Some (PyDict entries)) ->
  success status ->
  (dict_get "results" entries = None ->
   anext self Fresh w = Some (Raised (KeyError "results"), Closed, sent (url self) w)
   /\ (forall fuel,
         get_all self (S fuel) w = Some (Raise (KeyError "results"), sent (url self) w)))
  /\ (forall good names es rest,
        dict_get "results" entries = Some (PyList (good ++ PyDict es :: rest)) ->
        Forall2 is_entry good names ->
        dict_get "name" es = None ->
        anext self Fresh w = Some (Raised (KeyError "name"), Closed, sent (url self) w)
        /\ (forall fuel,
              get_all self (S fuel) w = Some (Raise (KeyError "name"), sent (url self) w))
        /\ pool (sent (url self) w) = pool w
        /\ log (sent (url self) w) = log w ++ [url self]).
Proof.
  intros Hr Hs. pose proof (index_body self status entries Hr Hs) as Hb. split.
  - intros Hnone. rewrite (getitem_missing _ _ Hnone), bind_Raise in Hb.
    destruct (index_failure self w _ Hb) as (Ha & Hall & _). auto.
  - intros good names es rest Hres Hgood Hname.
    rewrite (getitem_dict _ _ _ Hres), bind_Ret in Hb. unfold iter in Hb.
    rewrite bind_Ret in Hb.
    rewrite (comprehension_first_failure _ _ _ _ _ (KeyError "name")
               (is_entry_getitem _ _ Hgood) (getitem_missing _ _ Hname)) in Hb.
    destruct (index_failure self w _ Hb) as (Ha & Hall & _). auto.
Qed.

Lemma malformed_index_launches_nothing_nameless :
  get_all (mkAPI Fixture.base
             (Fixture.serving
                (PyDict [("results",
                          PyList [Fixture.entry "cheri";
                                  PyDict [("url", PyStr "u")]])]))
             Fixture.no_repr) 1 (Fixture.start [0; 0])
  = Some (Raise (KeyError "name"), sent Fixture.base (Fixture.start [0; 0])).
Proof.
  assert (Hs : success 200) by (unfold success; lia).
  assert (Hg : Forall2 is_entry [Fixture.entry "cheri"] ["cheri"]).
  { constructor; [|constructor]. eexists. split; reflexivity. }
  exact (proj1 (proj2 (proj2 (malformed_index_launches_nothing
           (mkAPI Fixture.base
              (Fixture.serving
                 (PyDict [("results",
                           PyList [Fixture.entry "cheri";
                                   PyDict [("url", PyStr "u")]])]))
              Fixture.no_repr)
           (Fixture.start [0; 0]) 200
           [("results", PyList [Fixture.entry "cheri"; PyDict [("url", PyStr "u")]])]
           eq_refl Hs)
           [Fixture.entry "cheri"] ["cheri"] [("url", PyStr "u")] []
           eq_refl Hg eq_refl)) 0).
Defined.

(** X7. What a consumer of [get_all_generator] is shown depends on how many
    times it advances, not on when: two consumers that advance equally
    often see the same outcomes, however long each awaits other things in
    between. *)
Theorem consumer_pace_irrelevant (self : BerriesAPI) (w : world) (m1 m2 : list move) :
  advances m1 = advances m2 ->
  consume self (Advance :: m1) Fresh w = consume self (Advance :: m2) Fresh w.
Proof.
  intros H.
  destruct (receive (url self) (client self (url self)) ≫= names_of) as [names|e] eqn:E.
  - rewrite !(consume_fresh self names _ w E), H. reflexivity.
  - destruct (index_failure self w e E) as (_ & _ & Hc). rewrite !Hc, H. reflexivity.
Qed.

Lemma consumer_pace_irrelevant_waits :
  consume (Fixture.api ["cheri"; "chesto"]) [Advance; Wait 3; Advance; Wait 1] Fresh
    (Fixture.start [0; 1; 1; 0])
  = consume (Fixture.api ["cheri"; "chesto"]) [Advance; Advance] Fresh
      (Fixture.start [0; 1; 1; 0]).
Proof.
  apply (consumer_pace_irrelevant (Fixture.api ["cheri"; "chesto"])
           (Fixture.start [0; 1; 1; 0]) [Wait 3; Advance; Wait 1] [Advance]).
  reflexivity.
Defined.




Lemma collect_advanced_any (self : BerriesAPI) (fuel todo : nat) (acc : list Berry)
  (w w' : world) (r : res (list Berry)) :
  collect (get_all_generator self) fuel (Looping todo) acc w = Some (r, w') ->
  exists k, advanced self w w' k.
Proof.
  revert todo acc w. induction fuel as [|fuel IH]; intros todo acc w; [discriminate|].
  cbn [collect gen_anext get_all_generator anext]. destruct todo as [|todo]; cbn [loop].
  - intros [= <- <-]. exists 0. apply advanced_refl.
  - destruct (queue_get self (sched w) w) as [[f w1]|] eqn:E; [|discriminate].
    apply queue_get_advanced in E.
    destruct (result w1 f) as [berry|e].
    + intros H. destruct (IH _ _ _ H) as [k Hk].
      exists (1 + k). apply (advanced_trans self _ _ _ 1 k E Hk).
    + intros [= <- <-]. exists 1. exact E.
Qed.

(** X9. [get_all] never repeats a request: whenever it returns or raises,
    it has sent the index request once and then detail requests that are,
    counted with repetition, among the URLs of the listed names; each
    listed name was requested at most once. *)
Theorem get_all_requests_at_most_once (self : BerriesAPI) (names : list pyval)
  (fuel : nat) (w w' : world) (r : res (list Berry)) :
  lists self names ->
  get_all self fuel w = Some (r, w') ->
  exists out,
    log w' = log w ++ url self :: out
    /\ out ⊆+ detail_url self <$> names.
Proof.
  intros Hl H. destruct fuel as [|fuel]; [discriminate|].
  rewrite (get_all_fresh self names fuel w Hl) in H.
  destruct (collect_advanced_any self _ _ _ _ _ _ H) as (k & out & Hlog & Hu & _ & _).
  cbn [launch sent pool log] in *. rewrite unsent_scheduled in Hu.
  exists out. rewrite Hlog, <- app_assoc. split; [reflexivity|].
  rewrite Hu. apply submseteq_inserts_r. reflexivity.
Qed.

Lemma get_all_requests_at_most_once_failing :
  match get_all (Fixture.api ["cheri"; "pecha"; "chesto"]) 2 (Fixture.start [0; 1; 1]) with
  | Some (r, w') =>
      exists out,
        log w' = log (Fixture.start [0; 1; 1]) ++ Fixture.base :: out
        /\ out ⊆+ detail_url (Fixture.api ["cheri"; "pecha"; "chesto"])
                   <$> [PyStr "cheri"; PyStr "pecha"; PyStr "chesto"]
  | None => False
  end.
Proof.
  destruct (get_all (Fixture.api ["cheri"; "pecha"; "chesto"]) 2 (Fixture.start [0; 1; 1]))
    as [[r w']|] eqn:E.
  - exact (get_all_requests_at_most_once (Fixture.api ["cheri"; "pecha"; "chesto"])
             [PyStr "cheri"; PyStr "pecha"; PyStr "chesto"] 2 (Fixture.start [0; 1; 1])
             w' r eq_refl E).
  - vm_compute in E. discriminate.
Defined.

(** * The console script *)


Lemma drive_yield_inv {W A : Type} (G : AsyncGenerator W A) (n : nat) (g : gen_frame G)
  (w : W) (a : A) (seen : list (outcome A)) (fin : option W) :
  drive G n g w = (Yielded a :: seen, fin) ->
  exists k g1 w1,
    n = S k /\ gen_anext G g w = Some (Yielded a, g1, w1)
    /\ drive G k g1 w1 = (seen, fin).
Proof.
  destruct n as [|k]; cbn [drive]; [discriminate|].
  destruct (gen_anext G g w) as [[[[a'|e|] g1] w1]|]; try discriminate.
  destruct (drive G k g1 w1) as [seen' fin'] eqn:E. intros [= <- <- <-].
  exists k, g1, w1. auto.
Qed.

Lemma drive_end_inv {W : Type} (G : AsyncGenerator W Berry) (n : nat) (g : gen_frame G)
  (w w' : W) (t : outcome Berry) :
  drive G n g w = ([t], Some w') -> Cli.terminal t ->
  exists g1, gen_anext G g w = Some (t, g1, w').
Proof.
  destruct n as [|k]; cbn [drive]; [discriminate|].
  destruct (gen_anext G g w) as [[[[a'|e|] g1] w1]|]; try discriminate.
  - destruct (drive G k g1 w1). intros [= <- _ _] [].
  - intros [= <- <-] _. eauto.
  - intros [= <- <-] _. eauto.
Qed.

Section CliFacts.

Context {W : Type}.
Variable generator : AsyncGenerator W Berry.
Variable name : option string.



Lemma screened_length (bs : list Berry) :
  length (fst (Cli.screened name bs)) <= length bs.
Proof.
  induction bs as [|b bs IH]; cbn [Cli.screened]; [cbn; lia|].
  destruct (Cli.wanted name b) as [[|]|e]; cbn; try lia.
  destruct (Cli.screened name bs). cbn in *. lia.
Qed.


End CliFacts.

(** X10. [get_app] wires the service to the repository it returns, a
    [BerriesAPI] at the default URL: [get] and [get_all] through the app's
    service do what the app's repository does, [get] with one request to
    [https://pokeapi.co/api/v2/berry/<id>], and a consumer of the service's
    generator sees what a consumer of the repository's generator sees. *)
Theorem get_app_wires_service_to_repository (remote : string -> reply)
  (py_repr : pyval -> string) (fuel : nat) (id : pyval) (w : world) :
  url (app_repository (get_app remote py_repr fuel)) = "https://pokeapi.co/api/v2/berry"
  /\ BerriesService.get (service_repository (app_service (get_app remote py_repr fuel))) id w
     = get (app_repository (get_app remote py_repr fuel)) id w
  /\ (exists r,
        BerriesService.get (service_repository (app_service (get_app remote py_repr fuel)))
          id w
        = Some (r, sent ("https://pokeapi.co/api/v2/berry" +:+ "/" +:+
                         format (app_repository (get_app remote py_repr fuel)) id) w))
  /\ BerriesService.get_all (service_repository (app_service (get_app remote py_repr fuel))) w
     = get_all (app_repository (get_app remote py_repr fuel)) fuel w
  /\ (forall n,
        drive (BerriesService.get_all_generator
                 (service_repository (app_service (get_app remote py_repr fuel))))
          n (Some Fresh) w
        = drive (get_all_generator (app_repository (get_app remote py_repr fuel)))
            n Fresh w).
Proof.
  cbn [get_app app_repository app_service service_repository url].
  destruct (service_over_api (mkAPI default_url remote py_repr) fuel id w) as [Hget Hall].
  split; [reflexivity|]. split; [exact Hget|]. split; [|split; [exact Hall|]].
  - rewrite Hget, get_unfold. eexists. reflexivity.
  - intros n. apply (service_drive (as_repository (mkAPI default_url remote py_repr) fuel)).
Qed.

Section FilterFacts.

Context {W : Type}.
Variable generator : AsyncGenerator W Berry.
Variable name : option string.

Lemma sift_skips (skipped : list Berry) (seen : list (outcome Berry)) (n limit : nat)
  (g : gen_frame generator) (w : W) (fin : option W) :
  drive generator n g w = ((Yielded <$> skipped) ++ seen, fin) ->
  Forall (fun x => Cli.wanted name x = Cli.Got false) skipped ->
  exists k g1 w1,
    drive generator k g1 w1 = (seen, fin)
    /\ (seen <> [] -> Cli.sift generator name (length skipped + limit) g w
                      = Cli.sift generator name limit g1 w1).
Proof.
  revert n g w. induction skipped as [|x skipped IH]; intros n g w Hd Hs.
  - exists n, g, w. auto.
  - inversion Hs as [|? ? Hx Hs']; subst.
    destruct (drive_yield_inv _ _ _ _ _ _ _ Hd) as (k & g1 & w1 & -> & Ha & Hk).
    destruct (IH k g1 w1 Hk Hs') as (k' & g2 & w2 & Hk' & Hsift).
    exists k', g2, w2. split; [exact Hk'|]. intros Hne.
    cbn [length Nat.add Cli.sift]. rewrite Ha, Hx. apply Hsift. exact Hne.
Qed.

End FilterFacts.

(** X11. One advance of [_filter_berries(generator, name)], from what
    [generator] goes on to do. It advances [generator] past the Berries the
    test of line 16 rejects and yields the first one it accepts, leaving
    [generator] just after it. When none is left it ends as [generator]
    ends, passing on its exception, and stays ended. When it reaches a
    Berry on which the test itself fails, it raises that failure; with
    [name] a string and a Berry name that is no [str] this is the
    [AttributeError] of [startswith]. With no [name] every Berry is
    accepted. *)
Theorem filter_advance {W : Type} (generator : AsyncGenerator W Berry)
  (name : option string) (skipped : list Berry) (limit : nat)
  (g : gen_frame generator) (w : W) :
  Forall (fun x => Cli.wanted name x = Cli.Got false) skipped ->
  length skipped < limit ->
  (forall n b rest fin,
     drive generator n g w = ((Yielded <$> skipped) ++ Yielded b :: rest, fin) ->
     Cli.wanted name b = Cli.Got true ->
     exists k g1 w1,
       Cli._filter_berries generator name limit (Some g) w = Some (Cli.Item b, Some g1, w1)
       /\ drive generator k g1 w1 = (rest, fin))
  /\ (forall n t w',
        drive generator n g w = ((Yielded <$> skipped) ++ [t], Some w') ->
        Cli.terminal t ->
        Cli._filter_berries generator name limit (Some g) w
        = Some (Cli.shown_end t, None, w')
        /\ forall w2,
             Cli._filter_berries generator name limit None w2 = Some (Cli.Ended, None, w2))
  /\ (forall n b rest fin e,
        drive generator n g w = ((Yielded <$> skipped) ++ Yielded b :: rest, fin) ->
        Cli.wanted name b = Cli.Threw e ->
        exists w1,
          Cli._filter_berries generator name limit (Some g) w
          = Some (Cli.Failed e, None, w1))
  /\ (forall b prefix,
        name = Some prefix -> ~ Cli.str_named b ->
        Cli.wanted name b = Cli.Threw (Cli.AttributeError "startswith"))
  /\ (forall b, name = None -> Cli.wanted name b = Cli.Got true).
Proof.
  intros Hs Hl. replace limit with (length skipped + S (limit - S (length skipped))) by lia.
  cbn [Cli._filter_berries]. split; [|split; [|split; [|split]]].
  - intros n b rest fin Hd Hb.
    destruct (sift_skips generator name skipped _ _ (S (limit - S (length skipped)))
                _ _ _ Hd Hs) as (k & g1 & w1 & Hk & Hsift).
    rewrite Hsift by discriminate.
    destruct (drive_yield_inv _ _ _ _ _ _ _ Hk) as (k' & g2 & w2 & -> & Ha & Hk').
    cbn [Cli.sift]. rewrite Ha, Hb. eauto.
  - intros n t w' Hd Ht. split; [|reflexivity].
    destruct (sift_skips generator name skipped _ _ (S (limit - S (length skipped)))
                _ _ _ Hd Hs) as (k & g1 & w1 & Hk & Hsift).
    rewrite Hsift by discriminate.
    destruct (drive_end_inv _ _ _ _ _ _ Hk Ht) as [g2 Ha].
    cbn [Cli.sift]. rewrite Ha. destruct t; [destruct Ht| |]; reflexivity.
  - intros n b rest fin e Hd Hb.
    destruct (sift_skips generator name skipped _ _ (S (limit - S (length skipped)))
                _ _ _ Hd Hs) as (k & g1 & w1 & Hk & Hsift).
    rewrite Hsift by discriminate.
    destruct (drive_yield_inv _ _ _ _ _ _ _ Hk) as (k' & g2 & w2 & -> & Ha & Hk').
    cbn [Cli.sift]. rewrite Ha, Hb. eauto.
  - intros b prefix -> Hn. unfold Cli.wanted, Cli.startswith.
    destruct (Berry_name b) eqn:E; try reflexivity.
    destruct Hn. exists s. exact E.
  - intros b ->. reflexivity.
Qed.

Lemma filter_advance_skips_cheri :
  exists k g1 w1,
    Cli._filter_berries (get_all_generator (Fixture.api ["cheri"; "chesto"]))
      (Some "ches") 2 (Some Fresh) (Fixture.start [0; 0; 1; 1])
    = Some (Cli.Item Fixture.Chesto, Some g1, w1)
    /\ drive (get_all_generator (Fixture.api ["cheri"; "chesto"])) k g1 w1
       = ([Stopped],
          snd (drive (get_all_generator (Fixture.api ["cheri"; "chesto"])) 3 Fresh
                 (Fixture.start [0; 0; 1; 1]))).
Proof.
  assert (Hs : Forall (fun x => Cli.wanted (Some "ches") x = Cli.Got false) [Fixture.Cheri])
    by (repeat constructor).
  exact (proj1 (filter_advance (get_all_generator (Fixture.api ["cheri"; "chesto"]))
                  (Some "ches") [Fixture.Cheri] 2 Fresh (Fixture.start [0; 0; 1; 1])
                  Hs ltac:(cbn; lia))
           3 Fixture.Chesto [Stopped] _ eq_refl eq_refl).
Defined.

(** ** The whole script *)







